(** * pyGPIO/gpio/gpioout.py: a gpiozero-like LED on top of pyGPIO

    Shallow embedding of the module [gpioout]: the process-wide set
    [_THREADS], the class [GPIOThread] (a [threading.Thread] with a
    [stopping] event) and the class [LED] with its blink thread.

    The controlling path is written in a state-and-exception monad over a
    [world] that holds every shared object: the registry, the thread
    objects, the LED object and the trace of observable events.  The blink
    thread is a small-step machine over the control points of
    [LED._blink_device]; a schedule (a list of thread identities) says which
    thread steps happen while the controlling path is blocked in
    [Thread.join]. *)

From Stdlib Require Import ZArith List Bool Lia.
From stdpp Require Import base decidable functions gmap strings pretty list.
Import ListNotations.

Open Scope Z_scope.
Open Scope string_scope.
Open Scope list_scope.

Set Warnings "-clear-no-such-hyp".

(** ** Data model *)

(** Identity of a [GPIOThread] object. *)
Definition tid := nat.

(** A pin as the LED docstring has it: "int or str". *)
Inductive pin :=
| PinNum (n : Z)
| PinName (s : string).

(** [port.GPIO4] is a constant of the external pin driver module
    [pyGPIO.gpio.port]; its numeric value is not part of this repository,
    so it is kept as a symbolic name. *)
Definition GPIO4 : pin := PinName "GPIO4".

(** Calls into the external driver [pyGPIO.gpio.gpio]. *)
Inductive gpio_call :=
| Ginit
| Gsetcfg (p : pin) (mode : Z)
| Goutput (p : pin) (level : Z).

(** Who executes a statement: the controlling path or a blink thread. *)
Inductive actor :=
| Main
| Thr (t : tid).

(** Observable events, in program order of the interleaving. *)
Inductive event :=
| EGpio (a : actor) (c : gpio_call)
| ESet (ev : tid)
| EClear (ev : tid)
| EWait (t : tid) (ev : tid) (timeout : Z) (signaled : bool).

Inductive exn :=
| ZombieThread (msg : string)
| RuntimeError (msg : string)
| AssertionError
| AttributeError (msg : string).

(** [itertools.repeat(0)] and [itertools.repeat(0, n)]: only the number of
    items left matters. *)
Inductive repeat_iter :=
| Forever
| Times (k : nat).

(** Control points of [LED._blink_device], with the local [iterable]. *)
Inductive pc :=
| PEntry
| PNext (it : repeat_iter)
| PWriteOn (it : repeat_iter)
| PWaitOn (it : repeat_iter)
| PWriteOff (it : repeat_iter)
| PWaitOff (it : repeat_iter).

(** Life of the underlying [threading.Thread]. *)
Inductive tstate :=
| Initial
| Running (p : pc)
| Finished
| Died (e : exn).

(** A [GPIOThread] object.  [targs] is the [args] tuple
    [(on_time, off_time, n)] given to the target [LED._blink_device];
    durations are whole seconds.  [confirmed] is a ghost field: it records
    that some [join] has seen the thread dead. *)
Record GPIOThreadObj := mkThread {
  stopping : bool;
  targs : Z * Z * option Z;
  daemon : bool;
  run_state : tstate;
  confirmed : bool }.

Record LEDObj := mkLED {
  _blink_thread : option tid;
  port : pin;
  _active_state : bool;
  _inactive_state : bool }.

Record world := mkWorld {
  _THREADS : gset tid;
  threads : tid -> GPIOThreadObj;
  next_tid : tid;
  led : LEDObj;
  trace : list event }.

(** Field updates. *)
Definition set_THREADS (r : gset tid) (w : world) : world :=
  mkWorld r (threads w) (next_tid w) (led w) (trace w).

Definition set_threads (f : tid -> GPIOThreadObj) (w : world) : world :=
  mkWorld (_THREADS w) f (next_tid w) (led w) (trace w).

Definition set_next_tid (n : tid) (w : world) : world :=
  mkWorld (_THREADS w) (threads w) n (led w) (trace w).

Definition set_led (l : LEDObj) (w : world) : world :=
  mkWorld (_THREADS w) (threads w) (next_tid w) l (trace w).

Definition log (e : event) (w : world) : world :=
  mkWorld (_THREADS w) (threads w) (next_tid w) (led w) (trace w ++ [e]).

Definition upd_thread (t : tid) (f : GPIOThreadObj -> GPIOThreadObj)
  (w : world) : world :=
  set_threads (<[t := f (threads w t)]> (threads w)) w.

Definition with_stopping (b : bool) (th : GPIOThreadObj) : GPIOThreadObj :=
  mkThread b (targs th) (daemon th) (run_state th) (confirmed th).

Definition with_run_state (s : tstate) (th : GPIOThreadObj) : GPIOThreadObj :=
  mkThread (stopping th) (targs th) (daemon th) s (confirmed th).

Definition with_confirmed (b : bool) (th : GPIOThreadObj) : GPIOThreadObj :=
  mkThread (stopping th) (targs th) (daemon th) (run_state th) b.

Definition with_blink_thread (b : option tid) (l : LEDObj) : LEDObj :=
  mkLED b (port l) (_active_state l) (_inactive_state l).

Definition alive (s : tstate) : bool :=
  match s with Running _ => true | _ => false end.

Definition was_started (s : tstate) : bool :=
  match s with Initial => false | _ => true end.

Definition is_alive (t : tid) (w : world) : bool :=
  alive (run_state (threads w t)).

Definition started (t : tid) (w : world) : bool :=
  was_started (run_state (threads w t)).

(** ** The monad of the controlling path

    A statement either returns, raises, or never returns ([Hang]: a
    [join] without timeout on a thread that the schedule leaves alive). *)

Inductive outcome (A : Type) :=
| Ret (a : A)
| Raise (e : exn)
| Hang.
Arguments Ret {A} a.
Arguments Raise {A} e.
Arguments Hang {A}.

Definition M (A : Type) : Type := world -> outcome A * world.

Definition ret {A} (a : A) : M A := fun w => (Ret a, w).

Definition raise {A} (e : exn) : M A := fun w => (Raise e, w).

Definition bind {A B} (m : M A) (f : A -> M B) : M B :=
  fun w =>
    match m w with
    | (Ret a, w') => f a w'
    | (Raise e, w') => (Raise e, w')
    | (Hang, w') => (Hang, w')
    end.

Definition get {A} (f : world -> A) : M A := fun w => (Ret (f w), w).

Definition modify (f : world -> world) : M unit := fun w => (Ret tt, f w).

Notation "'let!' x ':=' m 'in' k" := (bind m (fun x => k))
  (at level 10, x name, m at level 100, k at level 200).
Notation "m '>>' k" := (bind m (fun _ => k))
  (at level 90, right associativity).

(** ** The external driver: every call is only recorded *)

Module gpio.
Definition init (a : actor) : M unit := modify (log (EGpio a Ginit)).
Definition setcfg (a : actor) (p : pin) (mode : Z) : M unit :=
  modify (log (EGpio a (Gsetcfg p mode))).
Definition output (a : actor) (p : pin) (level : Z) : M unit :=
  modify (log (EGpio a (Goutput p level))).
End gpio.

(** ** threading.Event on the [stopping] field of thread object [ev] *)

Module Event.
Definition set (ev : tid) : M unit :=
  modify (fun w => log (ESet ev) (upd_thread ev (with_stopping true) w)).
Definition clear (ev : tid) : M unit :=
  modify (fun w => log (EClear ev) (upd_thread ev (with_stopping false) w)).
Definition is_set (ev : tid) (w : world) : bool :=
  stopping (threads w ev).
End Event.

(** ** The part of class LED that the blink thread executes *)

Module Target.

(** [LED._write], executed by actor [a]. *)
Definition _write (a : actor) (value : bool) : M unit :=
  let! p := get (fun w => port (led w)) in
  if value then gpio.output a p 1 else gpio.output a p 0.

Definition goto (t : tid) (p : pc) (w : world) : world :=
  upd_thread t (with_run_state (Running p)) w.

Definition finish (t : tid) (w : world) : world :=
  upd_thread t (with_run_state Finished) w.

Definition die (t : tid) (e : exn) (w : world) : world :=
  upd_thread t (with_run_state (Died e)) w.

(** [repeat(0) if n is None else repeat(0, n)]; a negative [n] gives an
    empty iterator. *)
Definition repeat (n : option Z) : repeat_iter :=
  match n with
  | None => Forever
  | Some z => Times (Z.to_nat z)
  end.

Definition next (it : repeat_iter) : option repeat_iter :=
  match it with
  | Forever => Some Forever
  | Times O => None
  | Times (S k) => Some (Times k)
  end.

(** [self._blink_thread.stopping.wait(timeout)] executed by thread [t]:
    the result is the flag at the moment the wait returns.  The thread
    object is read through the LED attribute, as in the source. *)
Definition wait_stopping (t : tid) (timeout : Z) (w : world)
  : option bool * world :=
  match _blink_thread (led w) with
  | None => (None, w)
  | Some b =>
      let r := Event.is_set b w in
      (Some r, log (EWait t b timeout r) w)
  end.

(** One step of [LED._blink_device] on thread [t]. *)
Definition _blink_device (t : tid) (w : world) : world :=
  let th := threads w t in
  let '(on_time, off_time, n) := targs th in
  match run_state th with
  | Running PEntry => goto t (PNext (repeat n)) w
  | Running (PNext it) =>
      match next it with
      | Some it' => goto t (PWriteOn it') w
      | None => finish t w
      end
  | Running (PWriteOn it) =>
      goto t (PWaitOn it) (snd (_write (Thr t) true w))
  | Running (PWaitOn it) =>
      match wait_stopping t on_time w with
      | (None, w') =>
          die t (AttributeError "'NoneType' object has no attribute 'stopping'") w'
      | (Some true, w') => finish t w'
      | (Some false, w') => goto t (PWriteOff it) w'
      end
  | Running (PWriteOff it) =>
      goto t (PWaitOff it) (snd (_write (Thr t) false w))
  | Running (PWaitOff it) =>
      match wait_stopping t off_time w with
      | (None, w') =>
          die t (AttributeError "'NoneType' object has no attribute 'stopping'") w'
      | (Some true, w') => finish t w'
      | (Some false, w') => goto t (PNext it) w'
      end
  | _ => w
  end.

End Target.

(** A schedule: the thread steps that happen during one blocking window. *)
Definition sched := list tid.

Definition run_sched (s : sched) (w : world) : world :=
  fold_left (fun w t => Target._blink_device t w) s w.

(** ** threading.Thread *)

Module Thread.

Definition is_alive (t : tid) : M bool := get (is_alive t).

Definition start (t : tid) : M unit :=
  fun w =>
    match run_state (threads w t) with
    | Initial => (Ret tt, Target.goto t PEntry w)
    | _ => (Raise (RuntimeError "threads can only be started once"), w)
    end.

(** [join(timeout)]: with a timeout the call returns after the window
    whatever the thread did; without one it returns only once the thread
    is dead. *)
Definition join (t : tid) (timeout : option Z) (s : sched) : M unit :=
  fun w =>
    match run_state (threads w t) with
    | Initial =>
        (Raise (RuntimeError "cannot join thread before it is started"), w)
    | _ =>
        let w' := run_sched s w in
        match timeout with
        | Some _ => (Ret tt, w')
        | None =>
            if alive (run_state (threads w' t)) then (Hang, w')
            else (Ret tt, w')
        end
    end.

End Thread.

(** ** class GPIOThread *)

Module GPIOThread.

(** [GPIOThread(target, args)]: a new object with a cleared event. *)
Definition __init__ (args : Z * Z * option Z) : M tid :=
  fun w =>
    let t := next_tid w in
    (Ret t,
     set_next_tid (S t)
       (set_threads (<[t := mkThread false args true Initial false]> (threads w)) w)).

Definition start (t : tid) : M unit :=
  Event.clear t >>
  modify (fun w => set_THREADS ({[t]} ∪ _THREADS w) w) >>
  Thread.start t.

Definition zombie_msg (timeout : Z) : string :=
  "Thread failed to die within " +:+ pretty timeout +:+ " seconds".

Definition join (t : tid) (timeout : option Z) (s : sched) : M unit :=
  Thread.join t timeout s >>
  let! a := Thread.is_alive t in
  if a then
    match timeout with
    | None => raise AssertionError
    | Some z => raise (ZombieThread (zombie_msg z))
    end
  else
    modify (fun w =>
      upd_thread t (with_confirmed true) (set_THREADS (_THREADS w ∖ {[t]}) w)).

Definition stop (t : tid) (timeout : option Z) (s : sched) : M unit :=
  Event.set t >>
  join t timeout s.

End GPIOThread.

(** ** class LED *)

Module LED.

Definition set_blink_thread (b : option tid) : M unit :=
  modify (fun w => set_led (with_blink_thread b (led w)) w).

Definition __init__ (_pin : option pin) : M unit :=
  set_blink_thread None >>
  gpio.init Main >>
  modify (fun w =>
    set_led (mkLED (_blink_thread (led w)) GPIO4
               (_active_state (led w)) (_inactive_state (led w))) w) >>
  (let! p := get (fun w => port (led w)) in gpio.setcfg Main p 1) >>
  modify (fun w =>
    set_led (mkLED (_blink_thread (led w)) (port (led w))
               true (_inactive_state (led w))) w) >>
  modify (fun w =>
    set_led (mkLED (_blink_thread (led w)) (port (led w))
               (_active_state (led w)) false) w).

Definition _write (value : bool) : M unit := Target._write Main value.

Definition _stop_blink (s : sched) : M unit :=
  let! b := get (fun w => _blink_thread (led w)) in
  match b with
  | Some t => GPIOThread.stop t (Some 10) s
  | None => ret tt
  end >>
  set_blink_thread None.

Definition close (s : sched) : M unit :=
  _stop_blink s >>
  gpio.init Main.

Definition on (s : sched) : M unit :=
  _stop_blink s >>
  _write true.

Definition off (s : sched) : M unit :=
  _stop_blink s >>
  _write false.

(** [s1] is the window of the stop of the previous task, [s2] the window
    of the final join when [background] is false. *)
Definition blink (on_time off_time : Z) (n : option Z) (background : bool)
  (s1 s2 : sched) : M unit :=
  _stop_blink s1 >>
  let! t := GPIOThread.__init__ (on_time, off_time, n) in
  set_blink_thread (Some t) >>
  let! b := get (fun w => _blink_thread (led w)) in
  match b with
  | Some t' => GPIOThread.start t'
  | None => raise (AttributeError "'NoneType' object has no attribute 'start'")
  end >>
  if negb background then
    let! b := get (fun w => _blink_thread (led w)) in
    match b with
    | Some t' => GPIOThread.join t' None s2
    | None => raise (AttributeError "'NoneType' object has no attribute 'join'")
    end >>
    set_blink_thread None
  else ret tt.

End LED.

(** ** Reading the trace *)

Global Instance pin_eq_dec : EqDecision pin.
Proof. solve_decision. Defined.

(** Level written by an event, if it is a pin write to [p]. *)
Definition write_level (p : pin) (e : event) : option Z :=
  match e with
  | EGpio _ (Goutput q v) => if decide (q = p) then Some v else None
  | _ => None
  end.

(** The levels written to [p], oldest first. *)
Definition writes (p : pin) (tr : list event) : list Z :=
  omap (write_level p) tr.

(** The level the pin is left at: the last one written, if any. *)
Definition pin_level (p : pin) (tr : list event) : option Z :=
  last (writes p tr).

(** Pin writes issued by the controlling path. *)
Definition main_write (e : event) : bool :=
  match e with
  | EGpio Main (Goutput _ _) => true
  | _ => false
  end.

(** One full on/off cycle of thread [t] waiting on the event of [b]. *)
Definition cycle (t b : tid) (p : pin) (on_time off_time : Z) : list event :=
  [ EGpio (Thr t) (Goutput p 1); EWait t b on_time false;
    EGpio (Thr t) (Goutput p 0); EWait t b off_time false ].

Definition cycles (k : nat) (t b : tid) (p : pin) (on_time off_time : Z)
  : list event :=
  concat (replicate k (cycle t b p on_time off_time)).

(** [k] steps of thread [t] alone. *)
Definition run_thread (k : nat) (t : tid) (w : world) : world :=
  run_sched (replicate k t) w.

(** What the threads may not touch: the registry, the LED object, the
    allocation counter, and every field of a thread object but its
    [run_state]. *)
Definition frame (w w' : world) : Prop :=
  _THREADS w' = _THREADS w /\
  led w' = led w /\
  next_tid w' = next_tid w /\
  forall x,
    stopping (threads w' x) = stopping (threads w x) /\
    targs (threads w' x) = targs (threads w x) /\
    confirmed (threads w' x) = confirmed (threads w x).

(** The registry invariant: membership is "started and not yet confirmed
    dead by a join".  The second part says that the ghost field is only
    ever set on a started thread. *)
Definition registry_inv (w : world) : Prop :=
  forall t,
    (t ∈ _THREADS w <-> started t w = true /\ confirmed (threads w t) = false) /\
    (confirmed (threads w t) = true -> started t w = true).

(** At most one live blink thread, and it is the one the LED refers to. *)
Definition single_task (w : world) : Prop :=
  forall u, is_alive u w = true -> _blink_thread (led w) = Some u.

(** [GPIOThread.join] when the thread is found dead: the registry entry is
    discarded (and the ghost field records it). *)
Definition confirm_dead (t : tid) (w : world) : world :=
  upd_thread t (with_confirmed true) (set_THREADS (_THREADS w ∖ {[t]}) w).

(** [Event.set] on the [stopping] event of [t]. *)
Definition signal (t : tid) (w : world) : world :=
  log (ESet t) (upd_thread t (with_stopping true) w).

(** The state right after the module is imported: an empty registry, no
    thread object created yet, an LED object whose [__init__] has not run. *)
Definition no_thread : GPIOThreadObj :=
  mkThread false (0, 0, None) false Initial false.

Definition module_loaded : world :=
  mkWorld ∅ (fun _ => no_thread) 0%nat (mkLED None GPIO4 false false) [].

(** The middle of [LED.blink]: create the thread object, store it in the
    LED and start it. *)
Definition spawn (args : Z * Z * option Z) : M unit :=
  let! t := GPIOThread.__init__ args in
  LED.set_blink_thread (Some t) >>
  let! b := get (fun w => _blink_thread (led w)) in
  match b with
  | Some t' => GPIOThread.start t'
  | None => raise (AttributeError "'NoneType' object has no attribute 'start'")
  end.

(** The world [spawn] leaves: the new object has the identity [next_tid],
    is registered, and sits at the entry of its target. *)
Definition spawned (args : Z * Z * option Z) (w : world) : world :=
  let t := next_tid w in
  Target.goto t PEntry
    (set_THREADS ({[t]} ∪ _THREADS w)
      (log (EClear t)
        (upd_thread t (with_stopping false)
          (set_led (with_blink_thread (Some t) (led w))
            (set_next_tid (S t)
              (set_threads
                 (<[t := mkThread false args true Initial false]> (threads w))
                 w)))))).

(** [self._blink_thread = None]. *)
Definition clear_ref (w : world) : world :=
  set_led (with_blink_thread None (led w)) w.

(** What thread [t] reads while it runs: its arguments, the thread object
    [b] the LED refers to, the flag of [b]'s event and the LED's pin. *)
Definition ctx (t b : tid) (on_time off_time : Z) (n : option Z)
  (flag : bool) (p : pin) (w : world) : Prop :=
  targs (threads w t) = (on_time, off_time, n) /\
  _blink_thread (led w) = Some b /\
  stopping (threads w b) = flag /\
  port (led w) = p.

Definition at_pc (t : tid) (p : pc) (w : world) : Prop :=
  run_state (threads w t) = Running p.

(** No pin write by the controlling path among the events [evs]. *)
Definition no_main_write (evs : list event) : Prop :=
  Forall (fun e => main_write e = false) evs.

(** The number of steps a schedule grants to thread [t]. *)
Definition steps_of (t : tid) (s : sched) : nat :=
  count_occ Nat.eq_dec s t.

(** ** Proof automation *)

Ltac step_cases t w :=
  unfold Target._blink_device, Target.wait_stopping, Event.is_set;
  destruct (targs (threads w t)) as [[on_time off_time] n];
  destruct (run_state (threads w t)) as [|[|it|it|it|it|it]| |] eqn:Hst;
  try match goal with
      | |- context [Target.next ?i] => destruct (Target.next i) eqn:Hnext
      end;
  try (destruct (_blink_thread (led w)) eqn:Hb;
       [ match goal with
         | |- context [stopping (threads w ?b)] =>
             destruct (stopping (threads w b)) eqn:Hflag
         end | ]);
  cbn [fst snd].


(** ** Concrete runs used as examples *)

(** The LED was constructed and [blink()] was called with its defaults
    except for explicit durations: a background thread is alive. *)
Definition constructed_world : world :=
  snd (LED.__init__ None module_loaded).

Definition blinking_world : world :=
  snd (LED.blink 1 1 None true [] [] constructed_world).


(** A thread object for [repeat(0, 0)] that was started, ran to its end and
    was joined: the state in which a second [start] is attempted. *)
Definition joined_world : world :=
  snd (GPIOThread.join 0%nat None [0%nat; 0%nat]
    (snd (GPIOThread.start 0%nat
      (snd (GPIOThread.__init__ (1, 1, Some 0) module_loaded))))).



(** ** Further notions used by the properties beyond the claims *)

(** Thread [t] ends within [k] of its own steps, adding the events [evs]. *)
Definition ends_within (k : nat) (t : tid) (w : world) (evs : list event)
  : Prop :=
  run_state (threads (run_thread k t w) t) = Finished /\
  trace (run_thread k t w) = trace w ++ evs.

(** The registry holds nothing but the thread the LED refers to. *)
Definition registry_within_ref (w : world) : Prop :=
  forall u, u ∈ _THREADS w -> _blink_thread (led w) = Some u.

(** Object identities from [next_tid] on are unused: no thread object was
    created there yet. *)
Definition fresh_from (w : world) : Prop :=
  forall u, (next_tid w <= u)%nat ->
    run_state (threads w u) = Initial /\ confirmed (threads w u) = false.

Definition heap_inv (w : world) : Prop :=
  registry_inv w /\ fresh_from w.

(** What can happen around a blink thread: a step of some thread, or the
    controlling path setting or clearing an event, or rebinding the LED's
    reference. *)
Inductive action :=
| AStep (u : tid)
| ASet (b : tid)
| AClear (b : tid)
| ARef (r : option tid).

Definition run_action (a : action) (w : world) : world :=
  match a with
  | AStep u => Target._blink_device u w
  | ASet b => snd (Event.set b w)
  | AClear b => snd (Event.clear b w)
  | ARef r => snd (LED.set_blink_thread r w)
  end.

Definition run_actions (acts : list action) (w : world) : world :=
  fold_left (fun w a => run_action a w) acts w.

(** Levels written by thread [t], to whatever pin, oldest first. *)
Definition thread_write (t : tid) (e : event) : option Z :=
  match e with
  | EGpio (Thr u) (Goutput _ v) => if decide (u = t) then Some v else None
  | _ => None
  end.

Definition thread_writes (t : tid) (tr : list event) : list Z :=
  omap (thread_write t) tr.

(** The first [m] levels of the alternation that starts with [v]. *)
Fixpoint alternation (m : nat) (v : Z) : list Z :=
  match m with
  | O => []
  | S m' => v :: alternation m' (1 - v)
  end.

(** Which parity the number of writes of a blink thread has at each
    control point: even before an active write and after an inactive one,
    odd in between; no constraint once the thread is over. *)
Definition writes_even_at (s : tstate) : option bool :=
  match s with
  | Running PEntry | Running (PNext _) | Running (PWriteOn _)
  | Running (PWaitOff _) => Some true
  | Running (PWaitOn _) | Running (PWriteOff _) => Some false
  | _ => None
  end.

Definition alternating (t : tid) (base : list Z) (w : world) : Prop :=
  exists m,
    thread_writes t (trace w) = base ++ alternation m 1 /\
    forall b, writes_even_at (run_state (threads w t)) = Some b ->
              Nat.even m = b.

(** The only events a blink thread produces: writes of level 0 or 1 to the
    LED's pin, and waits on an event. *)
Definition toggle_event (p : pin) (e : event) : Prop :=
  match e with
  | EGpio (Thr _) (Goutput q v) => q = p /\ (v = 0 \/ v = 1)
  | EWait _ _ _ _ => True
  | _ => False
  end.

(** What a wait of the blink thread sees: the flag of the thread object the
    LED refers to, if it refers to one. *)
Definition seen_flag (w : world) : option bool :=
  match _blink_thread (led w) with
  | Some b => Some (stopping (threads w b))
  | None => None
  end.

(** The control flow of [LED._blink_device] alone: the next state of a
    thread with count [n] whose waits see [flag]. *)
Definition next_state (n : option Z) (flag : option bool) (s : tstate)
  : tstate :=
  match s with
  | Running PEntry => Running (PNext (Target.repeat n))
  | Running (PNext it) =>
      match Target.next it with
      | Some it' => Running (PWriteOn it')
      | None => Finished
      end
  | Running (PWriteOn it) => Running (PWaitOn it)
  | Running (PWaitOn it) =>
      match flag with
      | None => Died (AttributeError "'NoneType' object has no attribute 'stopping'")
      | Some true => Finished
      | Some false => Running (PWriteOff it)
      end
  | Running (PWriteOff it) => Running (PWaitOff it)
  | Running (PWaitOff it) =>
      match flag with
      | None => Died (AttributeError "'NoneType' object has no attribute 'stopping'")
      | Some true => Finished
      | Some false => Running (PNext it)
      end
  | _ => s
  end.

(** ** Frame properties of thread steps *)

Lemma frame_refl w : frame w w.
Proof. unfold frame. repeat split; reflexivity. Qed.

Lemma frame_trans w1 w2 w3 : frame w1 w2 -> frame w2 w3 -> frame w1 w3.
Proof.
  unfold frame. intros (Ha & Hb & Hc & Hd) (Ha' & Hb' & Hc' & Hd').
  repeat split; try congruence;
    destruct (Hd x) as (? & ? & ?), (Hd' x) as (? & ? & ?); congruence.
Qed.

Lemma upd_thread_lookup t f w x :
  threads (upd_thread t f w) x =
  if decide (t = x) then f (threads w t) else threads w x.
Proof.
  unfold upd_thread; cbn. unfold insert, fn_insert.
  destruct (decide (t = x)); reflexivity.
Qed.

Lemma frame_upd_run_state t s w : frame w (upd_thread t (with_run_state s) w).
Proof.
  unfold frame. repeat split; try reflexivity; rewrite upd_thread_lookup;
    destruct (decide (t = x)); subst; reflexivity.
Qed.

Lemma frame_log e w : frame w (log e w).
Proof. unfold frame; cbn. repeat split; reflexivity. Qed.

Lemma step_frame t w : frame w (Target._blink_device t w).
Proof.
  step_cases t w; unfold Target.goto, Target.finish, Target.die;
    try apply frame_refl;
    try apply frame_upd_run_state;
    (eapply frame_trans; [|apply frame_upd_run_state]);
    unfold Target._write, bind, get, gpio.output, modify; cbn;
    apply frame_log.
Qed.

Lemma run_sched_app s1 s2 w :
  run_sched (s1 ++ s2) w = run_sched s2 (run_sched s1 w).
Proof. unfold run_sched. apply fold_left_app. Qed.

Lemma run_sched_cons t s w :
  run_sched (t :: s) w = run_sched s (Target._blink_device t w).
Proof. reflexivity. Qed.

Lemma run_sched_frame s : forall w, frame w (run_sched s w).
Proof.
  induction s as [|t s IH]; intros w.
  - apply frame_refl.
  - rewrite run_sched_cons. eapply frame_trans; [apply step_frame | apply IH].
Qed.

(** A step of [t] leaves the [run_state] of every other thread alone. *)
Lemma step_other t x w :
  t <> x ->
  run_state (threads (Target._blink_device t w) x) = run_state (threads w x).
Proof.
  intros Hne.
  step_cases t w; unfold Target.goto, Target.finish, Target.die;
    rewrite ?upd_thread_lookup; destruct (decide (t = x)); try congruence;
    reflexivity.
Qed.

(** A thread that is not running does not step. *)
Lemma step_dead t w : is_alive t w = false -> Target._blink_device t w = w.
Proof.
  unfold is_alive. intros H.
  unfold Target._blink_device.
  destruct (targs (threads w t)) as [[? ?] ?].
  destruct (run_state (threads w t)); try reflexivity; discriminate.
Qed.

(** Steps never revive a dead thread and never un-start one. *)
Lemma step_alive_mono t x w :
  is_alive x (Target._blink_device t w) = true -> is_alive x w = true.
Proof.
  destruct (decide (t = x)) as [->|Hne].
  - destruct (is_alive x w) eqn:Ha; [reflexivity|].
    rewrite (step_dead _ _ Ha). congruence.
  - unfold is_alive. rewrite step_other by assumption. auto.
Qed.

Lemma step_started t x w :
  started x (Target._blink_device t w) = started x w.
Proof.
  destruct (decide (t = x)) as [->|Hne].
  - unfold started.
    step_cases x w; unfold Target.goto, Target.finish, Target.die;
      rewrite ?upd_thread_lookup, ?Hst;
      try (destruct (decide (x = x)); [|congruence]); reflexivity.
  - unfold started. rewrite step_other by assumption. reflexivity.
Qed.

Lemma run_sched_alive_mono s x : forall w,
  is_alive x (run_sched s w) = true -> is_alive x w = true.
Proof.
  induction s as [|t s IH]; intros w H; [exact H|].
  rewrite run_sched_cons in H. eauto using step_alive_mono.
Qed.

Lemma run_sched_started s x : forall w,
  started x (run_sched s w) = started x w.
Proof.
  induction s as [|t s IH]; intros w; [reflexivity|].
  rewrite run_sched_cons, IH. apply step_started.
Qed.

(** ** GPIOThread.join and GPIOThread.stop, case by case *)

Lemma join_cases t timeout s w :
  GPIOThread.join t timeout s w =
  if started t w then
    let w' := run_sched s w in
    if is_alive t w' then
      match timeout with
      | None => (Hang, w')
      | Some z => (Raise (ZombieThread (GPIOThread.zombie_msg z)), w')
      end
    else (Ret tt, confirm_dead t w')
  else (Raise (RuntimeError "cannot join thread before it is started"), w).
Proof.
  unfold GPIOThread.join, Thread.join, Thread.is_alive, bind, get, raise,
    modify, started, is_alive, confirm_dead.
  destruct (run_state (threads w t)) eqn:Hst; cbn [was_started];
    try reflexivity;
    destruct timeout; cbn zeta;
    destruct (alive (run_state (threads (run_sched s w) t))) eqn:Ha;
    rewrite ?Ha; reflexivity.
Qed.

Lemma stop_cases t timeout s w :
  GPIOThread.stop t timeout s w = GPIOThread.join t timeout s (signal t w).
Proof. reflexivity. Qed.

Lemma signal_run_state t x w :
  run_state (threads (signal t w) x) = run_state (threads w x).
Proof.
  unfold signal; cbn. unfold insert, fn_insert.
  destruct (decide (t = x)); subst; reflexivity.
Qed.

Lemma signal_started t x w : started x (signal t w) = started x w.
Proof. unfold started. rewrite signal_run_state. reflexivity. Qed.

Lemma signal_alive t x w : is_alive x (signal t w) = is_alive x w.
Proof. unfold is_alive. rewrite signal_run_state. reflexivity. Qed.

Lemma run_sched_THREADS s w : _THREADS (run_sched s w) = _THREADS w.
Proof. apply (run_sched_frame s w). Qed.

Lemma run_sched_led s w : led (run_sched s w) = led w.
Proof. apply (run_sched_frame s w). Qed.

Lemma run_sched_confirmed s w x :
  confirmed (threads (run_sched s w) x) = confirmed (threads w x).
Proof. apply (run_sched_frame s w). Qed.

Lemma run_sched_stopping s w x :
  stopping (threads (run_sched s w) x) = stopping (threads w x).
Proof. apply (run_sched_frame s w). Qed.

(** C1 *)


(** C10 *)

(** Claim C10.  In [GPIOThread.join] the assertion [timeout is not None]
    never fires: a join without timeout either does not return (the
    thread is still alive), or returns with the thread dead, or fails
    because the thread was never started.  It never raises
    [AssertionError] nor [ZombieThread]; [ZombieThread] comes only out of
    calls that gave a concrete timeout. *)
Theorem join_none_never_zombie (t : tid) (s : sched) (w : world) :
  let r := GPIOThread.join t None s w in
  fst r <> Raise AssertionError /\
  (forall msg, fst r <> Raise (ZombieThread msg)) /\
  (fst r = Ret tt <-> started t w = true /\ is_alive t (run_sched s w) = false) /\
  (fst r = Ret tt -> is_alive t (snd r) = false) /\
  (started t w = true /\ is_alive t (run_sched s w) = true -> fst r = Hang) /\
  (forall timeout msg,
     fst (GPIOThread.join t timeout s w) = Raise (ZombieThread msg) ->
     exists z, timeout = Some z /\ msg = GPIOThread.zombie_msg z /\
               is_alive t (run_sched s w) = true).
Proof.
  intros r. subst r. rewrite join_cases.
  assert (Hdead : forall w', is_alive t w' = false ->
                             is_alive t (confirm_dead t w') = false).
  { intros w' H. unfold is_alive, confirm_dead in *.
    rewrite upd_thread_lookup. destruct (decide (t = t)); [|congruence].
    exact H. }
  destruct (started t w) eqn:Hs; cbn zeta.
  - destruct (is_alive t (run_sched s w)) eqn:Ha; cbn [fst snd].
    + repeat split; try discriminate; try (intros [_ ?]; discriminate).
      intros timeout msg. rewrite join_cases, Hs. cbn zeta. rewrite Ha.
      destruct timeout as [z|]; cbn [fst]; [|discriminate].
      intros [= <-]. exists z. auto.
    + repeat split; try discriminate; auto.
      * intros [_ ?]; discriminate.
      * intros timeout msg. rewrite join_cases, Hs. cbn zeta. rewrite Ha.
        discriminate.
  - cbn [fst snd]. repeat split; try discriminate; try (intros [? _]; discriminate).
    intros timeout msg. rewrite join_cases, Hs. discriminate.
Qed.

(** ** The registry invariant *)

Lemma step_registry_inv u w : registry_inv w -> registry_inv (Target._blink_device u w).
Proof.
  intros H t. destruct (step_frame u w) as (Hr & _ & _ & Hx).
  destruct (Hx t) as (_ & _ & Hc).
  rewrite Hr, Hc, step_started. apply H.
Qed.

Lemma run_sched_registry_inv s : forall w,
  registry_inv w -> registry_inv (run_sched s w).
Proof.
  induction s as [|u s IH]; intros w H; [exact H|].
  rewrite run_sched_cons. apply IH, step_registry_inv, H.
Qed.

Lemma signal_registry_inv t w : registry_inv w -> registry_inv (signal t w).
Proof.
  intros H x. rewrite signal_started.
  assert (Hc : confirmed (threads (signal t w) x) = confirmed (threads w x)).
  { unfold signal; cbn. unfold insert, fn_insert.
    destruct (decide (t = x)); subst; reflexivity. }
  rewrite Hc. apply H.
Qed.

Lemma confirm_dead_registry_inv t w :
  started t w = true -> registry_inv w -> registry_inv (confirm_dead t w).
Proof.
  intros Hs H x. specialize (H x).
  unfold started, confirm_dead in *. rewrite upd_thread_lookup.
  cbn [_THREADS upd_thread set_threads set_THREADS threads].
  destruct (decide (t = x)) as [->|Hne]; cbn.
  - rewrite Hs. split; [|auto]. split; [set_solver|intros [_ ?]; discriminate].
  - destruct H as [H1 H2]. split; [|exact H2].
    rewrite <- H1. set_solver.
Qed.

Lemma join_registry_inv t timeout s w :
  registry_inv w -> registry_inv (snd (GPIOThread.join t timeout s w)).
Proof.
  intros H. rewrite join_cases.
  destruct (started t w) eqn:Hs; cbn zeta; [|exact H].
  destruct (is_alive t (run_sched s w)) eqn:Ha.
  - destruct timeout; cbn [snd]; apply run_sched_registry_inv, H.
  - cbn [snd]. apply confirm_dead_registry_inv.
    + now rewrite run_sched_started.
    + apply run_sched_registry_inv, H.
Qed.

Lemma stop_registry_inv t timeout s w :
  registry_inv w -> registry_inv (snd (GPIOThread.stop t timeout s w)).
Proof.
  intros H. rewrite stop_cases. apply join_registry_inv, signal_registry_inv, H.
Qed.

Lemma start_cases t w :
  GPIOThread.start t w =
  let w1 := set_THREADS ({[t]} ∪ _THREADS w)
              (log (EClear t) (upd_thread t (with_stopping false) w)) in
  if started t w
  then (Raise (RuntimeError "threads can only be started once"), w1)
  else (Ret tt, Target.goto t PEntry w1).
Proof.
  unfold GPIOThread.start, Thread.start, Event.clear, bind, modify, started.
  cbn. unfold insert, fn_insert.
  destruct (decide (t = t)); [|congruence]. cbn.
  destruct (run_state (threads w t)); reflexivity.
Qed.

Lemma start_THREADS t w :
  _THREADS (snd (GPIOThread.start t w)) = {[t]} ∪ _THREADS w.
Proof.
  rewrite start_cases. cbn zeta. destruct (started t w); reflexivity.
Qed.

Lemma start_registry_inv t w :
  confirmed (threads w t) = false ->
  registry_inv w -> registry_inv (snd (GPIOThread.start t w)).
Proof.
  intros Hc H x. specialize (H x). rewrite start_cases. cbn zeta.
  unfold started in *.
  destruct (was_started (run_state (threads w t))) eqn:Hs; cbn [snd];
    unfold Target.goto; rewrite ?upd_thread_lookup;
    cbn [_THREADS upd_thread set_threads set_THREADS threads log];
    unfold insert, fn_insert;
    repeat case_decide; subst; try congruence; cbn.
  - rewrite Hs, Hc. split; [|auto]. split; [auto|set_solver].
  - destruct H as [H1 H2]. split; [|exact H2]. rewrite <- H1. set_solver.
  - rewrite Hc. split; [|auto]. split; [auto|set_solver].
  - destruct H as [H1 H2]. split; [|exact H2]. rewrite <- H1. set_solver.
Qed.

Lemma join_THREADS_ret t timeout s w :
  fst (GPIOThread.join t timeout s w) = Ret tt ->
  _THREADS (snd (GPIOThread.join t timeout s w)) = _THREADS w ∖ {[t]}.
Proof.
  rewrite join_cases. destruct (started t w); cbn zeta; [|discriminate].
  destruct (is_alive t (run_sched s w)).
  - destruct timeout; discriminate.
  - intros _. cbn [snd]. unfold confirm_dead.
    cbn [_THREADS upd_thread set_threads set_THREADS].
    now rewrite run_sched_THREADS.
Qed.

Lemma join_THREADS_raise t timeout s w e :
  fst (GPIOThread.join t timeout s w) = Raise e ->
  _THREADS (snd (GPIOThread.join t timeout s w)) = _THREADS w.
Proof.
  rewrite join_cases. destruct (started t w); cbn zeta; [|reflexivity].
  destruct (is_alive t (run_sched s w)).
  - destruct timeout; cbn [snd]; intros _; apply run_sched_THREADS.
  - discriminate.
Qed.

Lemma module_loaded_registry_inv : registry_inv module_loaded.
Proof.
  intros x. unfold started. cbn. split; [|discriminate].
  split; [set_solver|intros [? _]; discriminate].
Qed.

Lemma joined_world_registry_inv : registry_inv joined_world.
Proof.
  unfold joined_world. apply join_registry_inv, start_registry_inv.
  - reflexivity.
  - intros x. unfold started. cbn. unfold insert, fn_insert.
    case_decide; cbn; (split; [|discriminate]);
      (split; [set_solver|intros [? _]; discriminate]).
Qed.

(** C3 *)

(** Claim C3, as the code has it.  Membership in [_THREADS] is "started
    and not yet seen dead by a join".  [start] adds exactly the thread,
    a join that finds it dead removes it, a join that raises leaves the
    registry as it was.  The invariant is kept by every [join], every
    [stop], every step of a blink thread, and by [start] on every thread
    that no join has confirmed dead, in particular on every thread that
    was never started. *)
Theorem registry_inv_kept (w : world) :
  registry_inv w ->
  (forall t, _THREADS (snd (GPIOThread.start t w)) = {[t]} ∪ _THREADS w) /\
  (forall t, confirmed (threads w t) = false ->
             registry_inv (snd (GPIOThread.start t w))) /\
  (forall t, started t w = false ->
             fst (GPIOThread.start t w) = Ret tt /\
             registry_inv (snd (GPIOThread.start t w))) /\
  (forall t timeout s, registry_inv (snd (GPIOThread.join t timeout s w))) /\
  (forall t timeout s, registry_inv (snd (GPIOThread.stop t timeout s w))) /\
  (forall t timeout s,
     fst (GPIOThread.join t timeout s w) = Ret tt ->
     _THREADS (snd (GPIOThread.join t timeout s w)) = _THREADS w ∖ {[t]}) /\
  (forall t timeout s msg,
     fst (GPIOThread.join t timeout s w) = Raise (ZombieThread msg) ->
     _THREADS (snd (GPIOThread.join t timeout s w)) = _THREADS w) /\
  (forall u, registry_inv (Target._blink_device u w)).
Proof.
  intros H. repeat apply conj.
  - intros t. apply start_THREADS.
  - intros t Hc. apply start_registry_inv; assumption.
  - intros t Hs. split.
    + rewrite start_cases. cbn zeta. rewrite Hs. reflexivity.
    + apply start_registry_inv; [|assumption].
      destruct (H t) as [_ Hc].
      destruct (confirmed (threads w t)); [|reflexivity].
      rewrite Hc in Hs by reflexivity. discriminate.
  - intros. apply join_registry_inv, H.
  - intros. apply stop_registry_inv, H.
  - intros t timeout s. apply join_THREADS_ret.
  - intros t timeout s msg. apply join_THREADS_raise.
  - intros u. apply step_registry_inv, H.
Qed.

Lemma registry_inv_kept_witness :
  registry_inv module_loaded /\
  registry_inv (snd (GPIOThread.start 0%nat module_loaded)) /\
  registry_inv (snd (GPIOThread.stop 0%nat (Some 10) [] module_loaded)).
Proof.
  split; [exact module_loaded_registry_inv|].
  pose proof (registry_inv_kept module_loaded module_loaded_registry_inv)
    as (_ & Hstart & _ & _ & Hstop & _).
  split; [apply Hstart; reflexivity | apply Hstop].
Defined.

(** Claim C3 as stated fails for a second [start]: on a thread that was
    started, ran to its end and was joined, [start] puts the thread back
    into [_THREADS] before [Thread.start] raises [RuntimeError]. *)
Lemma restart_breaks_registry_inv :
  registry_inv joined_world /\
  fst (GPIOThread.start 0%nat joined_world)
    = Raise (RuntimeError "threads can only be started once") /\
  0%nat ∈ _THREADS (snd (GPIOThread.start 0%nat joined_world)) /\
  confirmed (threads (snd (GPIOThread.start 0%nat joined_world)) 0%nat) = true /\
  ~ registry_inv (snd (GPIOThread.start 0%nat joined_world)).
Proof.
  assert (Hin : 0%nat ∈ _THREADS (snd (GPIOThread.start 0%nat joined_world))).
  { rewrite start_THREADS. set_solver. }
  assert (Hc : confirmed (threads (snd (GPIOThread.start 0%nat joined_world)) 0%nat) = true).
  { vm_compute. reflexivity. }
  repeat apply conj.
  - exact joined_world_registry_inv.
  - vm_compute. reflexivity.
  - exact Hin.
  - exact Hc.
  - intros H. destruct (H 0%nat) as [[H1 _] _].
    destruct (H1 Hin) as [_ Hf]. congruence.
Qed.

(** ** The toggle loop, step by step *)

Lemma ctx_frame t b on_time off_time n flag p w w' :
  frame w w' -> ctx t b on_time off_time n flag p w ->
  ctx t b on_time off_time n flag p w'.
Proof.
  intros (_ & Hl & _ & Hx) (Ha & Hb & Hf & Hp). unfold ctx.
  destruct (Hx t) as (_ & Ht & _), (Hx b) as (Hs & _ & _).
  rewrite Hl. repeat split; congruence.
Qed.

Lemma goto_state t p w : run_state (threads (Target.goto t p w) t) = Running p.
Proof.
  unfold Target.goto. rewrite upd_thread_lookup.
  destruct (decide (t = t)); [reflexivity|congruence].
Qed.

Lemma finish_state t w : run_state (threads (Target.finish t w) t) = Finished.
Proof.
  unfold Target.finish. rewrite upd_thread_lookup.
  destruct (decide (t = t)); [reflexivity|congruence].
Qed.

Section ToggleSteps.
Variables (t b : tid) (on_time off_time : Z) (n : option Z) (p : pin).

Lemma step_entry flag w :
  ctx t b on_time off_time n flag p w -> at_pc t PEntry w ->
  at_pc t (PNext (Target.repeat n)) (Target._blink_device t w) /\
  trace (Target._blink_device t w) = trace w.
Proof.
  intros (Ha & _) Hs. unfold at_pc in *. unfold Target._blink_device.
  rewrite Ha, Hs. split; [apply goto_state|reflexivity].
Qed.

Lemma step_next flag it it' w :
  ctx t b on_time off_time n flag p w -> at_pc t (PNext it) w ->
  Target.next it = Some it' ->
  at_pc t (PWriteOn it') (Target._blink_device t w) /\
  trace (Target._blink_device t w) = trace w.
Proof.
  intros (Ha & _) Hs Hn. unfold at_pc in *. unfold Target._blink_device.
  rewrite Ha, Hs, Hn. split; [apply goto_state|reflexivity].
Qed.

Lemma step_exhausted flag it w :
  ctx t b on_time off_time n flag p w -> at_pc t (PNext it) w ->
  Target.next it = None ->
  run_state (threads (Target._blink_device t w) t) = Finished /\
  trace (Target._blink_device t w) = trace w.
Proof.
  intros (Ha & _) Hs Hn. unfold at_pc in *. unfold Target._blink_device.
  rewrite Ha, Hs, Hn. split; [apply finish_state|reflexivity].
Qed.

Lemma step_write_on flag it w :
  ctx t b on_time off_time n flag p w -> at_pc t (PWriteOn it) w ->
  at_pc t (PWaitOn it) (Target._blink_device t w) /\
  trace (Target._blink_device t w)
    = trace w ++ [EGpio (Thr t) (Goutput p 1)].
Proof.
  intros (Ha & _ & _ & Hp) Hs. unfold at_pc in *. unfold Target._blink_device.
  rewrite Ha, Hs. split; [apply goto_state|]. cbn. now rewrite Hp.
Qed.

Lemma step_write_off flag it w :
  ctx t b on_time off_time n flag p w -> at_pc t (PWriteOff it) w ->
  at_pc t (PWaitOff it) (Target._blink_device t w) /\
  trace (Target._blink_device t w)
    = trace w ++ [EGpio (Thr t) (Goutput p 0)].
Proof.
  intros (Ha & _ & _ & Hp) Hs. unfold at_pc in *. unfold Target._blink_device.
  rewrite Ha, Hs. split; [apply goto_state|]. cbn. now rewrite Hp.
Qed.

Lemma step_wait_on_timeout it w :
  ctx t b on_time off_time n false p w -> at_pc t (PWaitOn it) w ->
  at_pc t (PWriteOff it) (Target._blink_device t w) /\
  trace (Target._blink_device t w) = trace w ++ [EWait t b on_time false].
Proof.
  intros (Ha & Hb & Hf & _) Hs. unfold at_pc in *.
  unfold Target._blink_device, Target.wait_stopping, Event.is_set.
  rewrite Ha, Hs, Hb, Hf. split; [apply goto_state|reflexivity].
Qed.

Lemma step_wait_off_timeout it w :
  ctx t b on_time off_time n false p w -> at_pc t (PWaitOff it) w ->
  at_pc t (PNext it) (Target._blink_device t w) /\
  trace (Target._blink_device t w) = trace w ++ [EWait t b off_time false].
Proof.
  intros (Ha & Hb & Hf & _) Hs. unfold at_pc in *.
  unfold Target._blink_device, Target.wait_stopping, Event.is_set.
  rewrite Ha, Hs, Hb, Hf. split; [apply goto_state|reflexivity].
Qed.

Lemma step_wait_on_signaled it w :
  ctx t b on_time off_time n true p w -> at_pc t (PWaitOn it) w ->
  run_state (threads (Target._blink_device t w) t) = Finished /\
  trace (Target._blink_device t w) = trace w ++ [EWait t b on_time true].
Proof.
  intros (Ha & Hb & Hf & _) Hs. unfold at_pc in *.
  unfold Target._blink_device, Target.wait_stopping, Event.is_set.
  rewrite Ha, Hs, Hb, Hf. split; [apply finish_state|reflexivity].
Qed.

Lemma step_wait_off_signaled it w :
  ctx t b on_time off_time n true p w -> at_pc t (PWaitOff it) w ->
  run_state (threads (Target._blink_device t w) t) = Finished /\
  trace (Target._blink_device t w) = trace w ++ [EWait t b off_time true].
Proof.
  intros (Ha & Hb & Hf & _) Hs. unfold at_pc in *.
  unfold Target._blink_device, Target.wait_stopping, Event.is_set.
  rewrite Ha, Hs, Hb, Hf. split; [apply finish_state|reflexivity].
Qed.

Lemma run_thread_add a c w :
  run_thread (a + c) t w = run_thread c t (run_thread a t w).
Proof. unfold run_thread. rewrite replicate_add. apply run_sched_app. Qed.

Lemma run_thread_S k w :
  run_thread (S k) t w = run_thread k t (Target._blink_device t w).
Proof. reflexivity. Qed.

Lemma run_thread_frame k w : frame w (run_thread k t w).
Proof. apply run_sched_frame. Qed.

Lemma run_thread_dead k : forall w,
  is_alive t w = false -> run_thread k t w = w.
Proof.
  induction k as [|k IH]; intros w H; [reflexivity|].
  rewrite run_thread_S, (step_dead _ _ H). apply IH, H.
Qed.

(** One full cycle without a signal: five steps. *)
Lemma run_one_cycle it it' w :
  ctx t b on_time off_time n false p w -> at_pc t (PNext it) w ->
  Target.next it = Some it' ->
  at_pc t (PNext it') (run_thread 5 t w) /\
  trace (run_thread 5 t w) = trace w ++ cycle t b p on_time off_time.
Proof.
  intros Hc Hs Hn.
  destruct (step_next _ _ _ _ Hc Hs Hn) as [Hs1 Ht1].
  pose proof (ctx_frame _ _ _ _ _ _ _ _ _ (step_frame t w) Hc) as Hc1.
  set (w1 := Target._blink_device t w) in *.
  destruct (step_write_on _ _ _ Hc1 Hs1) as [Hs2 Ht2].
  pose proof (ctx_frame _ _ _ _ _ _ _ _ _ (step_frame t w1) Hc1) as Hc2.
  set (w2 := Target._blink_device t w1) in *.
  destruct (step_wait_on_timeout _ _ Hc2 Hs2) as [Hs3 Ht3].
  pose proof (ctx_frame _ _ _ _ _ _ _ _ _ (step_frame t w2) Hc2) as Hc3.
  set (w3 := Target._blink_device t w2) in *.
  destruct (step_write_off _ _ _ Hc3 Hs3) as [Hs4 Ht4].
  pose proof (ctx_frame _ _ _ _ _ _ _ _ _ (step_frame t w3) Hc3) as Hc4.
  set (w4 := Target._blink_device t w3) in *.
  destruct (step_wait_off_timeout _ _ Hc4 Hs4) as [Hs5 Ht5].
  change (run_thread 5 t w) with (Target._blink_device t w4).
  split; [exact Hs5|].
  rewrite Ht5, Ht4, Ht3, Ht2, Ht1. unfold cycle.
  rewrite <- !app_assoc. reflexivity.
Qed.

(** [k] cycles of a finite iterator with at least [k] items left. *)
Lemma run_cycles_times k : forall m w,
  ctx t b on_time off_time n false p w ->
  at_pc t (PNext (Times (k + m))) w ->
  at_pc t (PNext (Times m)) (run_thread (5 * k) t w) /\
  trace (run_thread (5 * k) t w) = trace w ++ cycles k t b p on_time off_time.
Proof.
  induction k as [|k IH]; intros m w Hc Hs.
  - cbn. unfold cycles; cbn. rewrite app_nil_r. split; [exact Hs|reflexivity].
  - replace (5 * S k)%nat with (5 + 5 * k)%nat by lia.
    rewrite run_thread_add.
    destruct (run_one_cycle (Times (S k + m)) (Times (k + m)) w Hc Hs eq_refl)
      as [Hs1 Ht1].
    pose proof (ctx_frame _ _ _ _ _ _ _ _ _ (run_thread_frame 5 w) Hc) as Hc1.
    destruct (IH m _ Hc1 Hs1) as [Hs2 Ht2].
    split; [exact Hs2|].
    rewrite Ht2, Ht1. unfold cycles. cbn [replicate concat].
    rewrite <- app_assoc. reflexivity.
Qed.


End ToggleSteps.

(** ** A whole run of the toggle loop without a signal *)

Section WholeRun.
Variables (t b : tid) (on_time off_time : Z) (p : pin).

Lemma run_finite z w :
  ctx t b on_time off_time (Some z) false p w -> at_pc t PEntry w ->
  let k := Z.to_nat z in
  is_alive t (run_thread (5 * k + 1) t w) = true /\
  run_state (threads (run_thread (5 * k + 2) t w) t) = Finished /\
  trace (run_thread (5 * k + 2) t w)
    = trace w ++ cycles k t b p on_time off_time.
Proof.
  intros Hc Hs k.
  destruct (step_entry _ _ _ _ _ _ _ _ Hc Hs) as [Hs1 Ht1].
  pose proof (ctx_frame _ _ _ _ _ _ _ _ _ (step_frame t w) Hc) as Hc1.
  cbn [Target.repeat] in Hs1. fold k in Hs1.
  replace k with (k + 0)%nat in Hs1 by lia.
  destruct (run_cycles_times _ _ _ _ _ _ k 0%nat _ Hc1 Hs1) as [Hs2 Ht2].
  pose proof (ctx_frame _ _ _ _ _ _ _ _ _
                (run_thread_frame t (5 * k) _) Hc1) as Hc2.
  destruct (step_exhausted _ _ _ _ _ _ _ _ _ Hc2 Hs2 eq_refl) as [Hs3 Ht3].
  replace (5 * k + 1)%nat with (1 + 5 * k)%nat by lia.
  replace (5 * k + 2)%nat with (1 + (5 * k + 1))%nat by lia.
  rewrite !run_thread_add.
  change (run_thread 1 t w) with (Target._blink_device t w).
  set (w2 := run_thread (5 * k) t (Target._blink_device t w)) in *.
  change (run_thread 1 t w2) with (Target._blink_device t w2).
  repeat split.
  - unfold is_alive. unfold at_pc in Hs2. rewrite Hs2. reflexivity.
  - exact Hs3.
  - rewrite Ht3, Ht2, Ht1. reflexivity.
Qed.




End WholeRun.

(** When every other thread is dead, a schedule is as good as the number
    of steps it grants to [t]. *)
Lemma run_sched_single t s : forall w,
  (forall u, u <> t -> is_alive u w = false) ->
  run_sched s w = run_thread (steps_of t s) t w.
Proof.
  induction s as [|u s IH]; intros w Hd; [reflexivity|].
  rewrite run_sched_cons. unfold steps_of. cbn [count_occ].
  destruct (Nat.eq_dec u t) as [->|Hne].
  - rewrite run_thread_S. apply IH.
    intros u Hu. specialize (Hd u Hu).
    destruct (is_alive u (Target._blink_device t w)) eqn:Ha; [|reflexivity].
    apply step_alive_mono in Ha. congruence.
  - rewrite (step_dead u w (Hd u Hne)). apply IH, Hd.
Qed.

(** ** The LED methods, case by case *)

Lemma spawn_ok args w : spawn args w = (Ret tt, spawned args w).
Proof.
  unfold spawn, GPIOThread.__init__, LED.set_blink_thread, bind, get, modify.
  cbn [led set_led with_blink_thread _blink_thread set_next_tid set_threads].
  rewrite start_cases. cbn zeta.
  match goal with
  | |- (if started ?t ?W then _ else _) = _ =>
      assert (Hs : started t W = false)
  end.
  { unfold started. cbn. unfold insert, fn_insert.
    destruct (decide _); [reflexivity|congruence]. }
  rewrite Hs. reflexivity.
Qed.

Lemma stop_blink_none s w :
  _blink_thread (led w) = None ->
  LED._stop_blink s w = (Ret tt, clear_ref w).
Proof.
  intros H. unfold LED._stop_blink, bind, get. rewrite H. reflexivity.
Qed.

Lemma stop_blink_some t s w :
  _blink_thread (led w) = Some t ->
  LED._stop_blink s w =
  if started t w then
    let w1 := run_sched s (signal t w) in
    if is_alive t w1
    then (Raise (ZombieThread (GPIOThread.zombie_msg 10)), w1)
    else (Ret tt, clear_ref (confirm_dead t w1))
  else (Raise (RuntimeError "cannot join thread before it is started"),
        signal t w).
Proof.
  intros H. unfold LED._stop_blink, bind at 1, get. rewrite H.
  unfold bind. rewrite stop_cases, join_cases, signal_started.
  destruct (started t w); cbn zeta; [|reflexivity].
  destruct (is_alive t (run_sched s (signal t w))); reflexivity.
Qed.

Lemma spawned_led args w :
  led (spawned args w) = with_blink_thread (Some (next_tid w)) (led w).
Proof. reflexivity. Qed.

Lemma spawned_trace args w :
  trace (spawned args w) = trace w ++ [EClear (next_tid w)].
Proof. reflexivity. Qed.

Lemma spawned_THREADS args w :
  _THREADS (spawned args w) = {[next_tid w]} ∪ _THREADS w.
Proof. reflexivity. Qed.

Lemma spawned_state args w : at_pc (next_tid w) PEntry (spawned args w).
Proof. apply goto_state. Qed.

Lemma spawned_other args w u :
  u <> next_tid w ->
  run_state (threads (spawned args w) u) = run_state (threads w u).
Proof.
  intros Hne. unfold spawned; cbn. unfold insert, fn_insert.
  repeat case_decide; congruence.
Qed.

Lemma spawned_ctx on_time off_time n w :
  ctx (next_tid w) (next_tid w) on_time off_time n false (port (led w))
    (spawned (on_time, off_time, n) w).
Proof.
  unfold ctx, spawned; cbn. unfold insert, fn_insert.
  repeat case_decide; try congruence. repeat split.
Qed.

Lemma blink_cases on_time off_time n background s1 s2 w :
  LED.blink on_time off_time n background s1 s2 w =
  match LED._stop_blink s1 w with
  | (Ret _, w1) =>
      let t := next_tid w1 in
      let w2 := spawned (on_time, off_time, n) w1 in
      if background then (Ret tt, w2)
      else
        let w3 := run_sched s2 w2 in
        if is_alive t w3 then (Hang, w3)
        else (Ret tt, clear_ref (confirm_dead t w3))
  | (Raise e, w1) => (Raise e, w1)
  | (Hang, w1) => (Hang, w1)
  end.
Proof.
  unfold LED.blink. unfold bind at 1.
  destruct (LED._stop_blink s1 w) as [[[]|e|] w1]; try reflexivity.
  pose proof (spawn_ok (on_time, off_time, n) w1) as Hsp.
  unfold spawn in Hsp.
  unfold bind, GPIOThread.__init__, LED.set_blink_thread, get, modify, ret
    in Hsp |- *.
  cbn [led set_led with_blink_thread _blink_thread] in Hsp |- *.
  rewrite Hsp. cbn zeta.
  destruct background; cbn [negb]; [reflexivity|].
  rewrite spawned_led. cbn [with_blink_thread _blink_thread].
  rewrite join_cases.
  assert (Hs : started (next_tid w1) (spawned (on_time, off_time, n) w1) = true).
  { unfold started. rewrite (spawned_state _ w1). reflexivity. }
  rewrite Hs. cbn zeta.
  destruct (is_alive (next_tid w1) (run_sched s2 (spawned (on_time, off_time, n) w1)));
    reflexivity.
Qed.

Lemma on_cases s w :
  LED.on s w =
  match LED._stop_blink s w with
  | (Ret _, w1) => (Ret tt, log (EGpio Main (Goutput (port (led w1)) 1)) w1)
  | (Raise e, w1) => (Raise e, w1)
  | (Hang, w1) => (Hang, w1)
  end.
Proof.
  unfold LED.on, bind at 1.
  destruct (LED._stop_blink s w) as [[[]|e|] w1]; reflexivity.
Qed.

Lemma off_cases s w :
  LED.off s w =
  match LED._stop_blink s w with
  | (Ret _, w1) => (Ret tt, log (EGpio Main (Goutput (port (led w1)) 0)) w1)
  | (Raise e, w1) => (Raise e, w1)
  | (Hang, w1) => (Hang, w1)
  end.
Proof.
  unfold LED.off, bind at 1.
  destruct (LED._stop_blink s w) as [[[]|e|] w1]; reflexivity.
Qed.

Lemma close_cases s w :
  LED.close s w =
  match LED._stop_blink s w with
  | (Ret _, w1) => (Ret tt, log (EGpio Main Ginit) w1)
  | (Raise e, w1) => (Raise e, w1)
  | (Hang, w1) => (Hang, w1)
  end.
Proof.
  unfold LED.close, bind at 1.
  destruct (LED._stop_blink s w) as [[[]|e|] w1]; reflexivity.
Qed.

(** ** Events added by thread steps *)

Lemma no_main_write_app evs1 evs2 :
  no_main_write evs1 -> no_main_write evs2 -> no_main_write (evs1 ++ evs2).
Proof. unfold no_main_write. intros. apply Forall_app; auto. Qed.

Lemma step_trace t w :
  exists evs, trace (Target._blink_device t w) = trace w ++ evs /\ no_main_write evs.
Proof.
  step_cases t w;
    first
      [ exists []; split; [cbn; now rewrite app_nil_r | constructor]
      | eexists [_]; split; [reflexivity | repeat constructor] ].
Qed.

Lemma run_sched_trace s : forall w,
  exists evs, trace (run_sched s w) = trace w ++ evs /\ no_main_write evs.
Proof.
  induction s as [|t s IH]; intros w.
  - exists []. split; [cbn; now rewrite app_nil_r | constructor].
  - rewrite run_sched_cons.
    destruct (step_trace t w) as (e1 & H1 & N1).
    destruct (IH (Target._blink_device t w)) as (e2 & H2 & N2).
    exists (e1 ++ e2). split; [|now apply no_main_write_app].
    rewrite H2, H1, app_assoc. reflexivity.
Qed.

(** C2 *)

(** Claim C2, as the code has it.  On a device whose [_blink_thread]
    refers to thread [t], [_stop_blink] never hangs.  When the stop of
    [t] returns, the reference is cleared to [None] and [t] is dead and
    out of [_THREADS].  When the stop raises (the zombie case, or a
    thread that was never started), the exception leaves [_stop_blink]
    before the assignment: the reference still points at [t] and the
    registry is as it was. *)
Theorem stop_blink_reference (t : tid) (s : sched) (w : world) :
  _blink_thread (led w) = Some t ->
  let r := LED._stop_blink s w in
  fst r <> Hang /\
  (fst r = Ret tt <->
     started t w = true /\ is_alive t (run_sched s (signal t w)) = false) /\
  (fst r = Ret tt ->
     _blink_thread (led (snd r)) = None /\
     (t ∉ _THREADS (snd r)) /\
     is_alive t (snd r) = false) /\
  (forall e, fst r = Raise e ->
     _blink_thread (led (snd r)) = Some t /\
     _THREADS (snd r) = _THREADS w) /\
  (started t w = true -> is_alive t (run_sched s (signal t w)) = true ->
     fst r = Raise (ZombieThread "Thread failed to die within 10 seconds")).
Proof.
  intros Hb r. subst r. rewrite (stop_blink_some t s w Hb).
  destruct (started t w) eqn:Hs; cbn zeta.
  - destruct (is_alive t (run_sched s (signal t w))) eqn:Ha; cbn [fst snd].
    + repeat split; try discriminate; try (intros [_ ?]; discriminate).
      * rewrite run_sched_led. exact Hb.
      * rewrite run_sched_THREADS. reflexivity.
    + repeat split; try discriminate.
      * unfold clear_ref, confirm_dead. cbn. rewrite run_sched_THREADS. set_solver.
      * unfold is_alive, clear_ref, confirm_dead in *. cbn.
        unfold insert, fn_insert. case_decide; [|congruence]. exact Ha.
  - cbn [fst snd]. repeat split; try discriminate;
      try (intros [? _]; discriminate); try assumption.
Qed.

Lemma stop_blink_reference_witness :
  _blink_thread (led blinking_world) = Some 0%nat /\
  fst (LED._stop_blink (replicate 4 0%nat) blinking_world) = Ret tt /\
  _blink_thread (led (snd (LED._stop_blink (replicate 4 0%nat) blinking_world))) = None.
Proof.
  split; [reflexivity|].
  pose proof (stop_blink_reference 0%nat (replicate 4 0%nat) blinking_world eq_refl)
    as (_ & Hiff & Hret & _).
  assert (Hr : fst (LED._stop_blink (replicate 4 0%nat) blinking_world) = Ret tt).
  { apply Hiff. split; vm_compute; reflexivity. }
  split; [exact Hr | apply Hret, Hr].
Defined.

(** Claim C2 as stated fails in the zombie case: the background thread of
    a running blink gets no step during the grace period, [_stop_blink]
    raises [ZombieThread], and afterwards the reference is still the
    thread, which is still registered. *)
Lemma stop_blink_zombie_keeps_reference :
  _blink_thread (led blinking_world) = Some 0%nat /\
  fst (LED._stop_blink [] blinking_world)
    = Raise (ZombieThread "Thread failed to die within 10 seconds") /\
  _blink_thread (led (snd (LED._stop_blink [] blinking_world))) = Some 0%nat /\
  _blink_thread (led (snd (LED._stop_blink [] blinking_world))) <> None /\
  0%nat ∈ _THREADS (snd (LED._stop_blink [] blinking_world)).
Proof.
  repeat apply conj; try (vm_compute; reflexivity).
  vm_compute. discriminate.
Qed.


(** ** Reading pin writes off a trace *)

Lemma writes_app p tr1 tr2 : writes p (tr1 ++ tr2) = writes p tr1 ++ writes p tr2.
Proof. unfold writes. apply omap_app. Qed.

Lemma writes_output a p v : writes p [EGpio a (Goutput p v)] = [v].
Proof. unfold writes; cbn. case_decide; [reflexivity|congruence]. Qed.





(** C8 *)



(** C9 *)

(** Claim C9.  After a first [close()] that returned, a second [close()]
    returns as well and changes nothing but the trace, to which it adds
    the one driver call [gpio.init()]: no error, no pin write.  The first
    call itself only stopped the task and re-initialised the driver. *)
Theorem close_twice (s1 s2 : sched) (w w1 : world) :
  LED.close s1 w = (Ret tt, w1) ->
  LED.close s2 w1 = (Ret tt, log (EGpio Main Ginit) w1) /\
  _blink_thread (led w1) = None /\
  (forall p, writes p (trace (snd (LED.close s2 w1))) = writes p (trace w1)) /\
  (exists evs, trace w1 = trace w ++ evs ++ [EGpio Main Ginit] /\
               no_main_write evs).
Proof.
  rewrite close_cases.
  destruct (_blink_thread (led w)) as [t|] eqn:Hb.
  - rewrite (stop_blink_some t s1 w Hb).
    destruct (started t w); cbn zeta; [|discriminate].
    destruct (is_alive t (run_sched s1 (signal t w))) eqn:Ha; [discriminate|].
    intros [= <-].
    assert (Hc : LED.close s2
                   (log (EGpio Main Ginit)
                      (clear_ref (confirm_dead t (run_sched s1 (signal t w)))))
                 = (Ret tt, log (EGpio Main Ginit)
                      (log (EGpio Main Ginit)
                         (clear_ref (confirm_dead t (run_sched s1 (signal t w))))))).
    { rewrite close_cases, stop_blink_none by reflexivity. reflexivity. }
    rewrite Hc. repeat split.
    + intros p. cbn [snd log trace]. rewrite writes_app. cbn. apply app_nil_r.
    + destruct (run_sched_trace s1 (signal t w)) as (evs & Ht & Hn).
      exists (ESet t :: evs). split.
      * cbn [trace log clear_ref confirm_dead set_led upd_thread set_threads set_THREADS].
        rewrite Ht. cbn [signal trace log]. rewrite <- !app_assoc. reflexivity.
      * constructor; [reflexivity|exact Hn].
  - rewrite (stop_blink_none s1 w Hb). intros [= <-].
    assert (Hc : LED.close s2 (log (EGpio Main Ginit) (clear_ref w))
                 = (Ret tt, log (EGpio Main Ginit)
                      (log (EGpio Main Ginit) (clear_ref w)))).
    { rewrite close_cases, stop_blink_none by reflexivity. reflexivity. }
    rewrite Hc. repeat split.
    + intros p. cbn [snd log trace]. rewrite writes_app. cbn. apply app_nil_r.
    + exists []. split; [reflexivity|constructor].
Qed.

Lemma close_twice_witness :
  LED.close (replicate 4 0%nat) blinking_world
    = (Ret tt, snd (LED.close (replicate 4 0%nat) blinking_world)) /\
  fst (LED.close [] (snd (LED.close (replicate 4 0%nat) blinking_world))) = Ret tt.
Proof.
  assert (H : LED.close (replicate 4 0%nat) blinking_world
              = (Ret tt, snd (LED.close (replicate 4 0%nat) blinking_world))).
  { rewrite close_cases, (stop_blink_some 0%nat) by reflexivity.
    vm_compute started. cbn zeta.
    replace (is_alive 0%nat (run_sched (replicate 4 0%nat) (signal 0%nat blinking_world)))
      with false by (vm_compute; reflexivity).
    reflexivity. }
  split; [exact H|].
  destruct (close_twice (replicate 4 0%nat) [] blinking_world _ H) as (Hc & _).
  rewrite Hc. reflexivity.
Defined.

(** ** After a successful stop of the previous task *)

Lemma stop_blink_ret_inv s w w1 :
  LED._stop_blink s w = (Ret tt, w1) ->
  _blink_thread (led w1) = None /\
  port (led w1) = port (led w) /\
  next_tid w1 = next_tid w /\
  (exists evs, trace w1 = trace w ++ evs /\ no_main_write evs) /\
  (forall u, is_alive u w1 = true -> is_alive u w = true) /\
  (forall t, _blink_thread (led w) = Some t ->
     is_alive t w1 = false /\
     (t ∉ _THREADS w1) /\
     stopping (threads w1 t) = true /\
     exists evs, trace w1 = trace w ++ ESet t :: evs).
Proof.
  destruct (_blink_thread (led w)) as [t|] eqn:Hb.
  - rewrite (stop_blink_some t s w Hb).
    destruct (started t w); cbn zeta; [|discriminate].
    destruct (is_alive t (run_sched s (signal t w))) eqn:Ha; [discriminate|].
    intros [= <-].
    destruct (run_sched_trace s (signal t w)) as (evs & Ht & Hn).
    assert (Htr : trace (clear_ref (confirm_dead t (run_sched s (signal t w))))
                  = trace w ++ ESet t :: evs).
    { cbn [trace clear_ref confirm_dead set_led upd_thread set_threads set_THREADS].
      rewrite Ht. cbn [signal trace log]. rewrite <- app_assoc. reflexivity. }
    assert (Hal : forall u,
              is_alive u (clear_ref (confirm_dead t (run_sched s (signal t w))))
              = is_alive u (run_sched s (signal t w))).
    { intros u. unfold is_alive, clear_ref, confirm_dead. cbn.
      unfold insert, fn_insert. case_decide; subst; reflexivity. }
    repeat apply conj.
    + reflexivity.
    + cbn. rewrite run_sched_led. reflexivity.
    + cbn. destruct (run_sched_frame s (signal t w)) as (_ & _ & Hn' & _).
      rewrite Hn'. reflexivity.
    + exists (ESet t :: evs). split; [exact Htr|].
      constructor; [reflexivity|exact Hn].
    + intros u. rewrite Hal. intros H.
      apply run_sched_alive_mono in H. now rewrite signal_alive in H.
    + intros t' [= <-]. repeat apply conj.
      * rewrite Hal. exact Ha.
      * unfold clear_ref, confirm_dead. cbn. set_solver.
      * unfold clear_ref, confirm_dead. cbn. unfold insert, fn_insert.
        case_decide; [|congruence]. cbn.
        rewrite run_sched_stopping. unfold signal. cbn.
        unfold insert, fn_insert. case_decide; [reflexivity|congruence].
      * exists evs. exact Htr.
  - rewrite (stop_blink_none s w Hb). intros [= <-].
    repeat apply conj; try reflexivity.
    + exists []. split; [cbn; now rewrite app_nil_r|constructor].
    + auto.
    + discriminate.
Qed.

(** C6 *)

(** Claim C6.  [on], [off], [close] and [blink] all begin with
    [_stop_blink].  If that raises, the method raises the same way and
    does nothing of its own.  If it returns, the previous task (if any) had
    its event set, is dead and out of the registry, the stop itself wrote
    to no pin from the controlling path, and only then the method acts:
    [on] writes level 1, [off] writes level 0, [close] re-initialises the
    driver, [blink] creates and starts the new thread. *)
Theorem stop_before_action (s : sched) (w : world) :
  let r := LED._stop_blink s w in
  let w1 := snd r in
  (fst r <> Ret tt ->
     LED.on s w = r /\ LED.off s w = r /\ LED.close s w = r /\
     (forall on_time off_time n background s2,
        LED.blink on_time off_time n background s s2 w = r)) /\
  (fst r = Ret tt ->
     LED.on s w = (Ret tt, log (EGpio Main (Goutput (port (led w)) 1)) w1) /\
     LED.off s w = (Ret tt, log (EGpio Main (Goutput (port (led w)) 0)) w1) /\
     LED.close s w = (Ret tt, log (EGpio Main Ginit) w1) /\
     (forall on_time off_time n s2,
        LED.blink on_time off_time n true s s2 w
        = (Ret tt, spawned (on_time, off_time, n) w1)) /\
     (forall on_time off_time n s2,
        exists evs,
          trace (snd (LED.blink on_time off_time n false s s2 w))
          = trace w1 ++ EClear (next_tid w1) :: evs /\ no_main_write evs) /\
     (exists evs, trace w1 = trace w ++ evs /\ no_main_write evs) /\
     (forall t, _blink_thread (led w) = Some t ->
        is_alive t w1 = false /\
        (t ∉ _THREADS w1) /\
        stopping (threads w1 t) = true /\
        exists evs, trace w1 = trace w ++ ESet t :: evs)).
Proof.
  intros r w1. subst w1 r.
  split; intros Hr.
  - assert (Hb : forall on_time off_time n background s2,
        LED.blink on_time off_time n background s s2 w = LED._stop_blink s w).
    { intros. rewrite blink_cases.
      destruct (LED._stop_blink s w) as [[[]|e|] w1]; [|reflexivity..].
      cbn in Hr. congruence. }
    rewrite on_cases, off_cases, close_cases.
    destruct (LED._stop_blink s w) as [[[]|e|] w1] eqn:Hs; cbn in Hr;
      [congruence| |]; repeat split; try reflexivity;
      intros; apply Hb.
  - destruct (LED._stop_blink s w) as [[[]|e|] w1] eqn:Hs; cbn in Hr;
      try discriminate.
    destruct (stop_blink_ret_inv s w w1 Hs) as (_ & Hp & _ & Htr & _ & Hold).
    cbn [snd].
    rewrite on_cases, off_cases, close_cases, Hs, Hp.
    repeat apply conj; try reflexivity.
    + intros. rewrite blink_cases, Hs. reflexivity.
    + intros. rewrite blink_cases, Hs. cbn zeta.
      destruct (run_sched_trace s2 (spawned (on_time, off_time, n) w1))
        as (evs & Ht & Hn).
      exists evs. split; [|exact Hn].
      destruct (is_alive (next_tid w1)
                  (run_sched s2 (spawned (on_time, off_time, n) w1)));
        cbn [snd trace clear_ref confirm_dead set_led upd_thread set_threads
             set_THREADS];
        rewrite Ht, spawned_trace, <- app_assoc; reflexivity.
    + exact Htr.
    + exact Hold.
Qed.

Lemma stop_before_action_witness :
  fst (LED._stop_blink (replicate 4 0%nat) blinking_world) = Ret tt /\
  trace (snd (LED.on (replicate 4 0%nat) blinking_world))
  = trace (snd (LED._stop_blink (replicate 4 0%nat) blinking_world))
      ++ [EGpio Main (Goutput GPIO4 1)].
Proof.
  assert (Hr : fst (LED._stop_blink (replicate 4 0%nat) blinking_world) = Ret tt)
    by (vm_compute; reflexivity).
  split; [exact Hr|].
  destruct (stop_before_action (replicate 4 0%nat) blinking_world) as [_ H].
  destruct (H Hr) as (Hon & _). rewrite Hon. reflexivity.
Defined.

Lemma stop_blink_all_dead s w w1 :
  single_task w -> LED._stop_blink s w = (Ret tt, w1) ->
  forall u, is_alive u w1 = false.
Proof.
  intros Hone Hs u.
  destruct (stop_blink_ret_inv s w w1 Hs) as (_ & _ & _ & _ & Hmono & Hold).
  destruct (is_alive u w1) eqn:Ha; [|reflexivity].
  pose proof (Hone u (Hmono u Ha)) as Hb.
  destruct (Hold u Hb) as (Hd & _). congruence.
Qed.

Lemma confirm_clear_facts t w :
  is_alive t w = false ->
  _blink_thread (led (clear_ref (confirm_dead t w))) = None /\
  is_alive t (clear_ref (confirm_dead t w)) = false /\
  (t ∉ _THREADS (clear_ref (confirm_dead t w))) /\
  trace (clear_ref (confirm_dead t w)) = trace w.
Proof.
  intros Ha. repeat apply conj; try reflexivity.
  - unfold is_alive, clear_ref, confirm_dead in *. cbn.
    unfold insert, fn_insert. case_decide; [exact Ha|congruence].
  - unfold clear_ref, confirm_dead. cbn. set_solver.
Qed.

(** C7 *)

(** Claim C7.  Once the previous task is stopped, [blink] with
    [background=True] returns at once, whatever the threads do: the new
    thread is started, registered, has not taken a step yet, and
    [_blink_thread] refers to it.  With [background=False] and a finite
    count the call does not return while the new thread is alive; when the
    thread is dead the call returns with [_blink_thread] cleared and the
    thread out of the registry; and the thread does die on its own once it
    is granted its [5 * count + 2] steps. *)
Theorem blink_postcondition (on_time off_time : Z) (n : option Z)
    (s1 s2 : sched) (w w1 : world) :
  LED._stop_blink s1 w = (Ret tt, w1) ->
  let t := next_tid w1 in
  (let r := LED.blink on_time off_time n true s1 s2 w in
   fst r = Ret tt /\
   _blink_thread (led (snd r)) = Some t /\
   at_pc t PEntry (snd r) /\
   (t ∈ _THREADS (snd r)) /\
   trace (snd r) = trace w1 ++ [EClear t]) /\
  (forall z, n = Some z ->
   let r := LED.blink on_time off_time n false s1 s2 w in
   let w3 := run_sched s2 (spawned (on_time, off_time, n) w1) in
   (is_alive t w3 = true ->
      fst r = Hang /\ _blink_thread (led (snd r)) = Some t) /\
   (is_alive t w3 = false ->
      fst r = Ret tt /\
      _blink_thread (led (snd r)) = None /\
      is_alive t (snd r) = false /\
      t ∉ _THREADS (snd r)) /\
   fst (LED.blink on_time off_time n false s1
          (replicate (5 * Z.to_nat z + 2) t) w) = Ret tt).
Proof.
  intros Hs t. split.
  - cbn zeta. rewrite blink_cases, Hs. cbn zeta. cbn [fst snd].
    repeat apply conj; try reflexivity.
    + apply spawned_state.
    + rewrite spawned_THREADS. set_solver.
  - intros z -> r w3. subst r. rewrite !blink_cases, Hs. cbn zeta.
    fold t. fold w3. repeat apply conj.
    + intros Ha. rewrite Ha. cbn [fst snd]. split; [reflexivity|].
      subst w3. rewrite run_sched_led. reflexivity.
    + intros Ha. rewrite Ha. cbn [fst snd].
      destruct (confirm_clear_facts t w3 Ha) as (H1 & H2 & H3 & _). auto.
    + pose proof (spawned_ctx on_time off_time (Some z) w1) as Hc.
      pose proof (spawned_state (on_time, off_time, Some z) w1) as Hp.
      fold t in Hc, Hp.
      destruct (run_finite t t on_time off_time _ z _ Hc Hp) as (_ & Hf & _).
      change (run_sched (replicate (5 * Z.to_nat z + 2) t)
                (spawned (on_time, off_time, Some z) w1))
        with (run_thread (5 * Z.to_nat z + 2) t
                (spawned (on_time, off_time, Some z) w1)).
      unfold is_alive. rewrite Hf. reflexivity.
Qed.

Lemma blink_postcondition_witness :
  LED._stop_blink [] constructed_world
    = (Ret tt, snd (LED._stop_blink [] constructed_world)) /\
  _blink_thread (led (snd (LED.blink 1 1 (Some 3) true [] [] constructed_world)))
    = Some 0%nat /\
  fst (LED.blink 1 1 (Some 3) false [] (replicate 17 0%nat) constructed_world)
    = Ret tt.
Proof.
  assert (H : LED._stop_blink [] constructed_world
              = (Ret tt, snd (LED._stop_blink [] constructed_world)))
    by reflexivity.
  split; [exact H|].
  destruct (blink_postcondition 1 1 (Some 3) [] [] constructed_world _ H)
    as ((_ & Hbg & _) & Hsync).
  split; [exact Hbg|].
  destruct (Hsync 3 eq_refl) as (_ & _ & Hdone). exact Hdone.
Defined.

(** C4 *)





(** ** Cancellation during a wait *)



Lemma ctx_flag t b on_time off_time n flag p w :
  ctx t b on_time off_time n flag p w -> stopping (threads w b) = flag.
Proof. intros (_ & _ & H & _). exact H. Qed.

Lemma finished_stays t w k :
  run_state (threads w t) = Finished -> run_thread k t w = w.
Proof.
  intros H. apply run_thread_dead. unfold is_alive. now rewrite H.
Qed.

Lemma pin_level_snoc p tr a v rest :
  writes p rest = [] ->
  pin_level p ((tr ++ [EGpio a (Goutput p v)]) ++ rest) = Some v.
Proof.
  intros H. unfold pin_level.
  rewrite !writes_app, writes_output, H, app_nil_r. apply last_snoc.
Qed.


(** C5 *)



(** ** At most one live blink thread: kept by the LED methods

    This is the hypothesis [single_task] of the synchronous blink above;
    it holds once the LED is constructed and every method keeps it,
    whatever its outcome. *)

Lemma single_task_mono w w' :
  single_task w ->
  led w' = led w ->
  (forall u, is_alive u w' = true -> is_alive u w = true) ->
  single_task w'.
Proof. intros H Hl Ha u Hu. rewrite Hl. apply H, Ha, Hu. Qed.

Lemma single_task_all_dead w :
  (forall u, is_alive u w = false) -> single_task w.
Proof. intros H u Hu. rewrite H in Hu. discriminate. Qed.

Lemma stop_blink_single_task s w :
  single_task w -> single_task (snd (LED._stop_blink s w)).
Proof.
  intros H.
  destruct (LED._stop_blink s w) as [[[]|e|] w1] eqn:Hs; cbn [snd].
  - apply single_task_all_dead. eapply stop_blink_all_dead; eassumption.
  - destruct (_blink_thread (led w)) as [t|] eqn:Hb.
    + rewrite (stop_blink_some t s w Hb) in Hs.
      destruct (started t w); cbn zeta in Hs.
      * destruct (is_alive t (run_sched s (signal t w))); [|discriminate].
        injection Hs as _ <-.
        apply (single_task_mono w); [exact H|now rewrite run_sched_led|].
        intros u Hu. apply run_sched_alive_mono in Hu.
        now rewrite signal_alive in Hu.
      * injection Hs as _ <-.
        apply (single_task_mono w); [exact H|reflexivity|].
        intros u Hu. now rewrite signal_alive in Hu.
    + rewrite (stop_blink_none s w Hb) in Hs. discriminate.
  - destruct (_blink_thread (led w)) as [t|] eqn:Hb.
    + rewrite (stop_blink_some t s w Hb) in Hs.
      destruct (started t w); cbn zeta in Hs; [|discriminate].
      destruct (is_alive t (run_sched s (signal t w))); discriminate.
    + rewrite (stop_blink_none s w Hb) in Hs. discriminate.
Qed.

(** X12.  At most one live blink thread per device: if every live thread
    is the one the LED refers to, this is still so after [on], [off],
    [close] and [blink], whether they return, raise or hang, and whatever
    the schedule. *)
Lemma single_task_kept s s2 w :
  single_task w ->
  single_task (snd (LED.on s w)) /\
  single_task (snd (LED.off s w)) /\
  single_task (snd (LED.close s w)) /\
  (forall on_time off_time n background,
     single_task (snd (LED.blink on_time off_time n background s s2 w))).
Proof.
  intros H. pose proof (stop_blink_single_task s w H) as Hstop.
  rewrite on_cases, off_cases, close_cases.
  assert (Hb : forall on_time off_time n background,
             single_task (snd (LED.blink on_time off_time n background s s2 w))).
  { intros. rewrite blink_cases.
    destruct (LED._stop_blink s w) as [[[]|e|] w1] eqn:Hs;
      [|exact Hstop..].
    pose proof (stop_blink_all_dead s w w1 H Hs) as Hdead.
    cbn zeta.
    set (w2 := spawned (on_time, off_time, n) w1).
    assert (H2 : single_task w2).
    { intros u Hu. subst w2. rewrite spawned_led. cbn.
      destruct (decide (u = next_tid w1)) as [->|Hne]; [reflexivity|].
      unfold is_alive in Hu. rewrite spawned_other in Hu by exact Hne.
      specialize (Hdead u). unfold is_alive in Hdead. congruence. }
    destruct background; [exact H2|].
    assert (H3 : single_task (run_sched s2 w2)).
    { apply (single_task_mono w2); [exact H2|apply run_sched_led|].
      intros u. apply run_sched_alive_mono. }
    destruct (is_alive (next_tid w1) (run_sched s2 w2)) eqn:Ha; [exact H3|].
    cbn [snd]. apply single_task_all_dead. intros u.
    destruct (is_alive u (clear_ref (confirm_dead (next_tid w1) (run_sched s2 w2))))
      eqn:Hu; [|reflexivity].
    assert (Hu' : is_alive u (run_sched s2 w2) = true).
    { unfold is_alive, clear_ref, confirm_dead in Hu. cbn in Hu.
      unfold insert, fn_insert in Hu. case_decide; subst; exact Hu. }
    pose proof (H3 u Hu') as Hl. rewrite run_sched_led in Hl.
    subst w2. rewrite spawned_led in Hl. cbn in Hl.
    injection Hl as <-. congruence. }
  destruct (LED._stop_blink s w) as [[[]|e|] w1] eqn:Hs; cbn [snd] in *;
    repeat split; try assumption;
    apply single_task_all_dead; intros u;
    apply (stop_blink_all_dead s w w1 H Hs).
Qed.

(** * Properties beyond the claims *)

(** ** Joining and stopping a thread that is already dead *)

Lemma confirm_dead_alive t u w :
  is_alive u (confirm_dead t w) = is_alive u w.
Proof.
  unfold is_alive, confirm_dead. rewrite upd_thread_lookup.
  case_decide; subst; reflexivity.
Qed.

Lemma confirm_dead_started t u w :
  started u (confirm_dead t w) = started u w.
Proof.
  unfold started, confirm_dead. rewrite upd_thread_lookup.
  case_decide; subst; reflexivity.
Qed.

Lemma run_sched_dead_stays s t w :
  is_alive t w = false -> is_alive t (run_sched s w) = false.
Proof.
  intros H. destruct (is_alive t (run_sched s w)) eqn:Ha; [|reflexivity].
  apply run_sched_alive_mono in Ha. congruence.
Qed.

(** X1.  [join] and [stop] are idempotent once a join has returned: on a
    thread that some [join] found dead, every later [join] or [stop], with
    any timeout (also none) and whatever the other threads do, returns
    at once and leaves [_THREADS] as it is ([discard], not [remove]). *)
Theorem join_again_returns (t : tid) (to1 to2 : option Z) (s1 s2 : sched)
    (w : world) :
  fst (GPIOThread.join t to1 s1 w) = Ret tt ->
  let w1 := snd (GPIOThread.join t to1 s1 w) in
  fst (GPIOThread.join t to2 s2 w1) = Ret tt /\
  fst (GPIOThread.stop t to2 s2 w1) = Ret tt /\
  _THREADS (snd (GPIOThread.join t to2 s2 w1)) = _THREADS w1 /\
  _THREADS (snd (GPIOThread.stop t to2 s2 w1)) = _THREADS w1 /\
  (t ∉ _THREADS w1).
Proof.
  intros H w1.
  assert (Hw1 : started t w1 = true /\ is_alive t w1 = false /\ t ∉ _THREADS w1).
  { subst w1. revert H. rewrite join_cases.
    destruct (started t w) eqn:Hs; cbn zeta; [|discriminate].
    destruct (is_alive t (run_sched s1 w)) eqn:Ha;
      [destruct to1; discriminate|].
    intros _. cbn [snd].
    rewrite confirm_dead_started, confirm_dead_alive, run_sched_started.
    repeat split; try assumption.
    unfold confirm_dead. cbn. set_solver. }
  destruct Hw1 as (Hs & Ha & Hn).
  assert (Hj : forall w', started t w' = true -> is_alive t w' = false ->
             _THREADS w' = _THREADS w1 ->
             fst (GPIOThread.join t to2 s2 w') = Ret tt /\
             _THREADS (snd (GPIOThread.join t to2 s2 w')) = _THREADS w1).
  { intros w' Hs' Ha' Hr. rewrite join_cases, Hs'. cbn zeta.
    rewrite (run_sched_dead_stays s2 t w' Ha'). cbn [fst snd].
    split; [reflexivity|].
    unfold confirm_dead. cbn. rewrite run_sched_THREADS, Hr. set_solver. }
  destruct (Hj w1 Hs Ha eq_refl) as [H1 H2].
  rewrite stop_cases.
  destruct (Hj (signal t w1)) as [H3 H4].
  { now rewrite signal_started. }
  { now rewrite signal_alive. }
  { reflexivity. }
  auto.
Qed.

Lemma join_again_returns_witness :
  fst (GPIOThread.join 0%nat (Some 10) (replicate 4 0%nat) (signal 0%nat blinking_world))
    = Ret tt /\
  fst (GPIOThread.stop 0%nat None []
         (snd (GPIOThread.join 0%nat (Some 10) (replicate 4 0%nat)
                 (signal 0%nat blinking_world)))) = Ret tt.
Proof.
  assert (H : fst (GPIOThread.join 0%nat (Some 10) (replicate 4 0%nat)
                     (signal 0%nat blinking_world)) = Ret tt)
    by (vm_compute; reflexivity).
  split; [exact H|].
  apply (join_again_returns 0%nat (Some 10) None (replicate 4 0%nat) []
           (signal 0%nat blinking_world) H).
Defined.

(** ** Stopping a thread before it is started *)

Lemma at_pc_started t p0 w : at_pc t p0 w -> started t w = true.
Proof. unfold at_pc, started. intros ->. reflexivity. Qed.

(** X2.  [stop] (and [join]) on a thread that was never started raises
    [RuntimeError] without waiting, leaves the registry and the thread as
    they were apart from the event, which is set.  A later [start] is not
    cancelled by that: [start] clears the event first, so the thread is
    started, registered and its event is clear. *)
Theorem stop_before_start (t : tid) (timeout : option Z) (s : sched)
    (w : world) :
  started t w = false ->
  let r := GPIOThread.stop t timeout s w in
  fst r = Raise (RuntimeError "cannot join thread before it is started") /\
  fst (GPIOThread.join t timeout s w) = fst r /\
  snd r = signal t w /\
  _THREADS (snd r) = _THREADS w /\
  started t (snd r) = false /\
  stopping (threads (snd r) t) = true /\
  let r2 := GPIOThread.start t (snd r) in
  fst r2 = Ret tt /\
  stopping (threads (snd r2) t) = false /\
  at_pc t PEntry (snd r2) /\
  _THREADS (snd r2) = {[t]} ∪ _THREADS w.
Proof.
  intros Hs r. subst r.
  rewrite stop_cases, !join_cases, signal_started, Hs. cbn [fst snd].
  assert (Hflag : stopping (threads (signal t w) t) = true).
  { unfold signal. cbn. unfold insert, fn_insert.
    case_decide; [reflexivity|congruence]. }
  repeat apply conj; try reflexivity.
  - now rewrite signal_started.
  - exact Hflag.
  - rewrite start_cases. cbn zeta. now rewrite signal_started, Hs.
  - rewrite start_cases. cbn zeta. rewrite signal_started, Hs. cbn [snd].
    unfold Target.goto. rewrite upd_thread_lookup.
    case_decide; [|congruence]. cbn. unfold insert, fn_insert.
    case_decide; [reflexivity|congruence].
  - rewrite start_cases. cbn zeta. rewrite signal_started, Hs. cbn [snd].
    apply goto_state.
  - rewrite start_THREADS. reflexivity.
Qed.

Lemma stop_before_start_witness :
  started 5%nat module_loaded = false /\
  fst (GPIOThread.stop 5%nat (Some 10) [] module_loaded)
    = Raise (RuntimeError "cannot join thread before it is started") /\
  fst (GPIOThread.start 5%nat (snd (GPIOThread.stop 5%nat (Some 10) [] module_loaded)))
    = Ret tt.
Proof.
  split; [reflexivity|].
  destruct (stop_before_start 5%nat (Some 10) [] module_loaded eq_refl)
    as (H1 & _ & _ & _ & _ & _ & H2 & _).
  split; [exact H1 | exact H2].
Defined.

(** ** Cancellation is honoured within four steps *)

Lemma ends_within_now t w :
  run_state (threads w t) = Finished -> ends_within 0 t w [].
Proof.
  intros H. split; [exact H|]. cbn. now rewrite app_nil_r.
Qed.

Lemma ends_within_step k t w e1 evs :
  trace (Target._blink_device t w) = trace w ++ e1 ->
  ends_within k t (Target._blink_device t w) evs ->
  ends_within (S k) t w (e1 ++ evs).
Proof.
  intros He [Hf Ht]. split; rewrite run_thread_S; [exact Hf|].
  rewrite Ht, He, app_assoc. reflexivity.
Qed.

Lemma ends_within_more k k' t w evs :
  (k <= k')%nat -> ends_within k t w evs -> ends_within k' t w evs.
Proof.
  intros Hk [Hf Ht].
  replace k' with (k + (k' - k))%nat by lia.
  unfold ends_within. rewrite run_thread_add.
  rewrite (finished_stays t (run_thread k t w) (k' - k) Hf). auto.
Qed.

Section Signaled.
Variables (t b : tid) (on_time off_time : Z) (n : option Z) (p : pin).

Lemma signaled_wait_on it w :
  ctx t b on_time off_time n true p w -> at_pc t (PWaitOn it) w ->
  ends_within 1 t w [EWait t b on_time true].
Proof.
  intros Hc Hs.
  destruct (step_wait_on_signaled _ _ _ _ _ _ _ _ Hc Hs) as [Hf Ht].
  rewrite <- (app_nil_r [EWait t b on_time true]).
  apply ends_within_step; [exact Ht|]. now apply ends_within_now.
Qed.

Lemma signaled_wait_off it w :
  ctx t b on_time off_time n true p w -> at_pc t (PWaitOff it) w ->
  ends_within 1 t w [EWait t b off_time true].
Proof.
  intros Hc Hs.
  destruct (step_wait_off_signaled _ _ _ _ _ _ _ _ Hc Hs) as [Hf Ht].
  rewrite <- (app_nil_r [EWait t b off_time true]).
  apply ends_within_step; [exact Ht|]. now apply ends_within_now.
Qed.

Lemma signaled_write_on it w :
  ctx t b on_time off_time n true p w -> at_pc t (PWriteOn it) w ->
  ends_within 2 t w [EGpio (Thr t) (Goutput p 1); EWait t b on_time true].
Proof.
  intros Hc Hs.
  destruct (step_write_on _ _ _ _ _ _ _ _ _ Hc Hs) as [Hs1 Ht1].
  pose proof (ctx_frame _ _ _ _ _ _ _ _ _ (step_frame t w) Hc) as Hc1.
  change [EGpio (Thr t) (Goutput p 1); EWait t b on_time true]
    with ([EGpio (Thr t) (Goutput p 1)] ++ [EWait t b on_time true]).
  apply ends_within_step; [exact Ht1|].
  eapply signaled_wait_on; eassumption.
Qed.

Lemma signaled_write_off it w :
  ctx t b on_time off_time n true p w -> at_pc t (PWriteOff it) w ->
  ends_within 2 t w [EGpio (Thr t) (Goutput p 0); EWait t b off_time true].
Proof.
  intros Hc Hs.
  destruct (step_write_off _ _ _ _ _ _ _ _ _ Hc Hs) as [Hs1 Ht1].
  pose proof (ctx_frame _ _ _ _ _ _ _ _ _ (step_frame t w) Hc) as Hc1.
  change [EGpio (Thr t) (Goutput p 0); EWait t b off_time true]
    with ([EGpio (Thr t) (Goutput p 0)] ++ [EWait t b off_time true]).
  apply ends_within_step; [exact Ht1|].
  eapply signaled_wait_off; eassumption.
Qed.

Lemma signaled_next it w :
  ctx t b on_time off_time n true p w -> at_pc t (PNext it) w ->
  ends_within 3 t w
    (match Target.next it with
     | Some _ => [EGpio (Thr t) (Goutput p 1); EWait t b on_time true]
     | None => []
     end).
Proof.
  intros Hc Hs. destruct (Target.next it) as [it'|] eqn:Hn.
  - destruct (step_next _ _ _ _ _ _ _ _ _ _ Hc Hs Hn) as [Hs1 Ht1].
    pose proof (ctx_frame _ _ _ _ _ _ _ _ _ (step_frame t w) Hc) as Hc1.
    change [EGpio (Thr t) (Goutput p 1); EWait t b on_time true]
      with ([] ++ [EGpio (Thr t) (Goutput p 1); EWait t b on_time true]).
    apply ends_within_step; [now rewrite app_nil_r|].
    eapply signaled_write_on; eassumption.
  - destruct (step_exhausted _ _ _ _ _ _ _ _ _ Hc Hs Hn) as [Hf Ht].
    apply (ends_within_more 1); [lia|].
    change (@nil event) with (@nil event ++ []).
    apply ends_within_step; [now rewrite app_nil_r|].
    now apply ends_within_now.
Qed.

Lemma signaled_entry w :
  ctx t b on_time off_time n true p w -> at_pc t PEntry w ->
  ends_within 4 t w
    (match Target.next (Target.repeat n) with
     | Some _ => [EGpio (Thr t) (Goutput p 1); EWait t b on_time true]
     | None => []
     end).
Proof.
  intros Hc Hs.
  destruct (step_entry _ _ _ _ _ _ _ _ Hc Hs) as [Hs1 Ht1].
  pose proof (ctx_frame _ _ _ _ _ _ _ _ _ (step_frame t w) Hc) as Hc1.
  match goal with |- ends_within 4 t w ?e => change e with ([] ++ e) end.
  apply ends_within_step; [now rewrite app_nil_r|].
  apply signaled_next; assumption.
Qed.

(** From any control point, once the event is set. *)
Lemma signaled_ends w :
  ctx t b on_time off_time n true p w -> is_alive t w = true ->
  exists evs,
    ends_within 4 t w evs /\
    (writes p evs = [] \/ writes p evs = [1] \/ writes p evs = [0]) /\
    no_main_write evs.
Proof.
  intros Hc Ha. unfold is_alive in Ha.
  destruct (run_state (threads w t)) as [|[|it|it|it|it|it]| |] eqn:Hs;
    try discriminate.
  - eexists. split; [apply signaled_entry; assumption|].
    destruct (Target.next (Target.repeat n)); split;
      rewrite ?writes_app, ?writes_output; cbn;
      repeat case_decide; try congruence; auto; repeat constructor.
  - eexists. split;
      [apply (ends_within_more 3); [lia|apply (signaled_next it); assumption]|].
    destruct (Target.next it); split; cbn;
      repeat case_decide; try congruence; auto; repeat constructor.
  - eexists. split;
      [apply (ends_within_more 2); [lia|apply (signaled_write_on it); assumption]|].
    split; cbn; repeat case_decide; try congruence; auto; repeat constructor.
  - eexists. split;
      [apply (ends_within_more 1); [lia|apply (signaled_wait_on it); assumption]|].
    split; cbn; auto; repeat constructor.
  - eexists. split;
      [apply (ends_within_more 2); [lia|apply (signaled_write_off it); assumption]|].
    split; cbn; repeat case_decide; try congruence; auto; repeat constructor.
  - eexists. split;
      [apply (ends_within_more 1); [lia|apply (signaled_wait_off it); assumption]|].
    split; cbn; auto; repeat constructor.
Qed.

End Signaled.

(** X3.  Cooperative cancellation: once the event that thread [t] waits on
    is set, [t] ends within four of its own steps, from whatever point of
    the toggle loop it is at, and writes the pin at most once more. *)
Theorem cancel_within_four_steps (t b : tid) (w : world) :
  _blink_thread (led w) = Some b ->
  stopping (threads w b) = true ->
  is_alive t w = true ->
  exists evs,
    run_state (threads (run_thread 4 t w) t) = Finished /\
    trace (run_thread 4 t w) = trace w ++ evs /\
    (length (writes (port (led w)) evs) <= 1)%nat /\
    no_main_write evs /\
    (forall k, (4 <= k)%nat -> run_thread k t w = run_thread 4 t w).
Proof.
  intros Hb Hf Ha.
  destruct (targs (threads w t)) as [[on_time off_time] n] eqn:Hargs.
  assert (Hc : ctx t b on_time off_time n true (port (led w)) w)
    by (unfold ctx; auto).
  destruct (signaled_ends t b on_time off_time n _ w Hc Ha)
    as (evs & [Hfin Htr] & Hw & Hn).
  exists evs. repeat split; try assumption.
  - destruct Hw as [-> | [-> | ->]]; cbn; lia.
  - intros k Hk. replace k with (4 + (k - 4))%nat by lia.
    rewrite run_thread_add. apply finished_stays, Hfin.
Qed.

Lemma cancel_within_four_steps_witness :
  _blink_thread (led (signal 0%nat blinking_world)) = Some 0%nat /\
  stopping (threads (signal 0%nat blinking_world) 0%nat) = true /\
  is_alive 0%nat (signal 0%nat blinking_world) = true /\
  run_state (threads (run_thread 4 0%nat (signal 0%nat blinking_world)) 0%nat)
    = Finished.
Proof.
  repeat (split; [reflexivity|]).
  destruct (cancel_within_four_steps 0%nat 0%nat (signal 0%nat blinking_world)
              eq_refl eq_refl eq_refl) as (evs & H & _).
  exact H.
Defined.

(** ** Switching on or off while a blink is running *)

Lemma run_sched_all_dead s : forall w,
  (forall u, is_alive u w = false) -> run_sched s w = w.
Proof.
  induction s as [|u s IH]; intros w H; [reflexivity|].
  rewrite run_sched_cons, (step_dead u w (H u)). apply IH, H.
Qed.

Lemma pin_level_last p tr a v :
  pin_level p (tr ++ [EGpio a (Goutput p v)]) = Some v.
Proof.
  rewrite <- (app_nil_r (tr ++ _)). apply pin_level_snoc. reflexivity.
Qed.

Lemma stop_blink_succeeds s t w :
  single_task w ->
  _blink_thread (led w) = Some t ->
  started t w = true ->
  is_alive t w = false \/ (4 <= steps_of t s)%nat ->
  exists evs,
    LED._stop_blink s w
      = (Ret tt, clear_ref (confirm_dead t (run_sched s (signal t w)))) /\
    trace (run_sched s (signal t w)) = trace w ++ ESet t :: evs /\
    (length (writes (port (led w)) evs) <= 1)%nat /\
    no_main_write evs.
Proof.
  intros Hone Hb Hs Hcase.
  assert (Hothers : forall u, u <> t -> is_alive u (signal t w) = false).
  { intros u Hu. rewrite signal_alive.
    destruct (is_alive u w) eqn:Ha; [|reflexivity].
    specialize (Hone u Ha). congruence. }
  assert (Hrun : exists evs,
             is_alive t (run_sched s (signal t w)) = false /\
             trace (run_sched s (signal t w)) = trace w ++ ESet t :: evs /\
             (length (writes (port (led w)) evs) <= 1)%nat /\
             no_main_write evs).
  { destruct (is_alive t w) eqn:Ha.
    - destruct Hcase as [?|Hk]; [discriminate|].
      rewrite (run_sched_single t s _ Hothers).
      destruct (targs (threads (signal t w) t)) as [[on_time off_time] n] eqn:Hargs.
      assert (Hc : ctx t t on_time off_time n true (port (led w)) (signal t w)).
      { unfold ctx. rewrite Hargs. repeat split; try assumption.
        unfold signal. cbn. unfold insert, fn_insert.
        case_decide; [reflexivity|congruence]. }
      assert (Ha' : is_alive t (signal t w) = true) by now rewrite signal_alive.
      destruct (signaled_ends t t on_time off_time n _ _ Hc Ha')
        as (evs & Hend & Hw & Hn).
      apply (ends_within_more 4 (steps_of t s)) in Hend; [|exact Hk].
      destruct Hend as [Hfin Htr].
      exists evs. repeat split.
      + unfold is_alive. now rewrite Hfin.
      + rewrite Htr. unfold signal. cbn. rewrite <- app_assoc. reflexivity.
      + destruct Hw as [-> | [-> | ->]]; cbn; lia.
      + exact Hn.
    - exists []. rewrite run_sched_all_dead.
      + rewrite signal_alive. split; [exact Ha|]. split; [reflexivity|].
        split; [cbn; lia|constructor].
      + intros u. destruct (decide (u = t)) as [->|Hu].
        * now rewrite signal_alive.
        * apply Hothers, Hu. }
  destruct Hrun as (evs & Hdead & Htr & Hlen & Hn).
  exists evs. rewrite (stop_blink_some t s w Hb), Hs. cbn zeta.
  rewrite Hdead. auto.
Qed.

(** X4.  On a device with one blink thread that is already dead or gets
    four steps during the grace period, [off()], [on()] and [close()] never
    raise: the thread is stopped after at most one more write, then [off]
    leaves the pin at level 0 and [on] at level 1, and nothing toggles the
    pin any more, whatever is scheduled afterwards. *)
Theorem switch_while_blinking (s : sched) (t : tid) (w : world) :
  single_task w ->
  _blink_thread (led w) = Some t ->
  started t w = true ->
  is_alive t w = false \/ (4 <= steps_of t s)%nat ->
  let p := port (led w) in
  (fst (LED.off s w) = Ret tt /\
   pin_level p (trace (snd (LED.off s w))) = Some 0 /\
   forall s', run_sched s' (snd (LED.off s w)) = snd (LED.off s w)) /\
  (fst (LED.on s w) = Ret tt /\
   pin_level p (trace (snd (LED.on s w))) = Some 1 /\
   forall s', run_sched s' (snd (LED.on s w)) = snd (LED.on s w)) /\
  (fst (LED.close s w) = Ret tt /\
   forall s', run_sched s' (snd (LED.close s w)) = snd (LED.close s w)) /\
  (exists evs,
     trace (snd (LED._stop_blink s w)) = trace w ++ ESet t :: evs /\
     (length (writes p evs) <= 1)%nat /\
     no_main_write evs).
Proof.
  intros Hone Hb Hs Hcase p.
  destruct (stop_blink_succeeds s t w Hone Hb Hs Hcase)
    as (evs & Hstop & Htr & Hlen & Hn).
  pose proof (stop_blink_all_dead s w _ Hone Hstop) as Hdead.
  destruct (stop_blink_ret_inv s w _ Hstop) as (_ & Hport & _).
  set (w1 := clear_ref (confirm_dead t (run_sched s (signal t w)))) in *.
  assert (Hq : forall e s', run_sched s' (log e w1) = log e w1).
  { intros e s'. apply run_sched_all_dead. intros u. apply (Hdead u). }
  rewrite on_cases, off_cases, close_cases, Hstop. cbn [fst snd].
  rewrite Hport. fold p.
  repeat apply conj; try reflexivity; try apply Hq.
  - cbn [trace log]. apply pin_level_last.
  - cbn [trace log]. apply pin_level_last.
  - exists evs. repeat split; assumption.
Qed.

Lemma single_task_blinking : single_task blinking_world.
Proof.
  intros u H. unfold is_alive, blinking_world in H.
  destruct (decide (u = 0%nat)) as [->|Hu]; [reflexivity|].
  rewrite blink_cases in H. cbn in H.
  unfold insert, fn_insert in H. repeat case_decide; try congruence;
    discriminate.
Qed.

Lemma switch_while_blinking_witness :
  single_task blinking_world /\
  _blink_thread (led blinking_world) = Some 0%nat /\
  started 0%nat blinking_world = true /\
  (4 <= steps_of 0%nat (replicate 4 0%nat))%nat /\
  pin_level GPIO4 (trace (snd (LED.off (replicate 4 0%nat) blinking_world)))
    = Some 0.
Proof.
  pose proof single_task_blinking as Hone.
  assert (Hk : (4 <= steps_of 0%nat (replicate 4 0%nat))%nat)
    by (vm_compute; lia).
  repeat (split; [first [exact Hone | exact Hk | reflexivity]|]).
  destruct (switch_while_blinking (replicate 4 0%nat) 0%nat blinking_world
              Hone eq_refl eq_refl (or_intror Hk)) as ((_ & H & _) & _).
  exact H.
Defined.

(** ** A synchronous blink without a count *)



(** ** A blink thread that does not die *)

Lemma step_no_main_call u w :
  exists evs,
    trace (Target._blink_device u w) = trace w ++ evs /\
    Forall (fun e => forall c, e <> EGpio Main c) evs.
Proof.
  step_cases u w;
    first
      [ exists []; split; [cbn; now rewrite app_nil_r | constructor]
      | eexists [_]; split;
        [reflexivity | repeat constructor; intros c; discriminate] ].
Qed.

Lemma run_sched_no_main_call s : forall w,
  exists evs,
    trace (run_sched s w) = trace w ++ evs /\
    Forall (fun e => forall c, e <> EGpio Main c) evs.
Proof.
  induction s as [|u s IH]; intros w.
  - exists []. split; [cbn; now rewrite app_nil_r|constructor].
  - rewrite run_sched_cons.
    destruct (step_no_main_call u w) as (e1 & H1 & N1).
    destruct (IH (Target._blink_device u w)) as (e2 & H2 & N2).
    exists (e1 ++ e2). split; [|apply Forall_app; auto].
    rewrite H2, H1, app_assoc. reflexivity.
Qed.

(** X6.  When the current blink thread is still alive at the end of the
    grace period, [on], [off], [close] and [blink] all raise
    [ZombieThread] with the ten-second message and do nothing else: no
    driver call from the controlling path, no new thread object, the
    reference and the registry as they were. *)
Theorem zombie_propagates (s : sched) (t : tid) (w : world) :
  _blink_thread (led w) = Some t ->
  started t w = true ->
  is_alive t (run_sched s (signal t w)) = true ->
  let z : outcome unit * world :=
    (Raise (ZombieThread "Thread failed to die within 10 seconds"),
     run_sched s (signal t w)) in
  LED.on s w = z /\
  LED.off s w = z /\
  LED.close s w = z /\
  (forall on_time off_time n background s2,
     LED.blink on_time off_time n background s s2 w = z) /\
  _blink_thread (led (snd z)) = Some t /\
  _THREADS (snd z) = _THREADS w /\
  next_tid (snd z) = next_tid w /\
  (exists evs, trace (snd z) = trace w ++ ESet t :: evs /\
               Forall (fun e => forall c, e <> EGpio Main c) evs).
Proof.
  intros Hb Hs Ha z.
  assert (Hstop : LED._stop_blink s w = z).
  { rewrite (stop_blink_some t s w Hb), Hs. cbn zeta. rewrite Ha. reflexivity. }
  rewrite on_cases, off_cases, close_cases, Hstop.
  subst z. cbn [fst snd].
  repeat apply conj; try reflexivity.
  - intros. rewrite blink_cases, Hstop. reflexivity.
  - rewrite run_sched_led. exact Hb.
  - rewrite run_sched_THREADS. reflexivity.
  - destruct (run_sched_frame s (signal t w)) as (_ & _ & Hn & _).
    rewrite Hn. reflexivity.
  - destruct (run_sched_no_main_call s (signal t w)) as (evs & Ht & Hn).
    exists evs. split; [|exact Hn].
    rewrite Ht. unfold signal. cbn. rewrite <- app_assoc. reflexivity.
Qed.

Lemma zombie_propagates_witness :
  _blink_thread (led blinking_world) = Some 0%nat /\
  started 0%nat blinking_world = true /\
  is_alive 0%nat (run_sched [0%nat] (signal 0%nat blinking_world)) = true /\
  fst (LED.close [0%nat] blinking_world)
    = Raise (ZombieThread "Thread failed to die within 10 seconds").
Proof.
  repeat (split; [reflexivity|]).
  destruct (zombie_propagates [0%nat] 0%nat blinking_world
              eq_refl eq_refl eq_refl) as (_ & _ & H & _).
  rewrite H. reflexivity.
Defined.

(** ** The registry seen from the LED *)

Lemma stop_blink_THREADS_ret s w w1 :
  registry_within_ref w ->
  LED._stop_blink s w = (Ret tt, w1) ->
  _THREADS w1 = ∅ /\ _blink_thread (led w1) = None.
Proof.
  intros Hreg. destruct (_blink_thread (led w)) as [t|] eqn:Hb.
  - rewrite (stop_blink_some t s w Hb).
    destruct (started t w); cbn zeta; [|discriminate].
    destruct (is_alive t (run_sched s (signal t w))); [discriminate|].
    intros [= <-]. split; [|reflexivity].
    unfold clear_ref, confirm_dead. cbn. rewrite run_sched_THREADS. cbn.
    apply set_eq. intros u. split; [|set_solver].
    intros Hu. apply elem_of_difference in Hu as [Hu Hne].
    specialize (Hreg u Hu). rewrite Hb in Hreg. injection Hreg as ->.
    set_solver.
  - rewrite (stop_blink_none s w Hb). intros [= <-]. split; [|reflexivity].
    cbn. apply set_eq. intros u. split; [|set_solver].
    intros Hu. specialize (Hreg u Hu). congruence.
Qed.

Lemma stop_blink_raise_same s w e w1 :
  LED._stop_blink s w = (Raise e, w1) ->
  _THREADS w1 = _THREADS w /\ led w1 = led w.
Proof.
  destruct (_blink_thread (led w)) as [t|] eqn:Hb.
  - rewrite (stop_blink_some t s w Hb).
    destruct (started t w); cbn zeta.
    + destruct (is_alive t (run_sched s (signal t w))); [|discriminate].
      intros [= _ <-]. rewrite run_sched_THREADS, run_sched_led. auto.
    + intros [= _ <-]. auto.
  - rewrite (stop_blink_none s w Hb). discriminate.
Qed.

Lemma stop_blink_never_hangs s w : fst (LED._stop_blink s w) <> Hang.
Proof.
  destruct (_blink_thread (led w)) as [t|] eqn:Hb.
  - rewrite (stop_blink_some t s w Hb).
    destruct (started t w); cbn zeta; [|discriminate].
    destruct (is_alive t (run_sched s (signal t w))); discriminate.
  - rewrite (stop_blink_none s w Hb). discriminate.
Qed.

(** X7.  No leaked registry entries: if [_THREADS] holds nothing but the
    thread the LED refers to, every LED method keeps it so, whatever its
    outcome.  After [on], [off] or [close] returned, and after a
    synchronous [blink] returned, the registry is empty; after a
    background [blink] it holds exactly the new thread. *)
Theorem registry_within_ref_kept (s s2 : sched) (w : world) :
  registry_within_ref w ->
  (registry_within_ref (snd (LED.on s w)) /\
   registry_within_ref (snd (LED.off s w)) /\
   registry_within_ref (snd (LED.close s w)) /\
   forall on_time off_time n background,
     registry_within_ref
       (snd (LED.blink on_time off_time n background s s2 w))) /\
  (fst (LED.on s w) = Ret tt -> _THREADS (snd (LED.on s w)) = ∅) /\
  (fst (LED.off s w) = Ret tt -> _THREADS (snd (LED.off s w)) = ∅) /\
  (fst (LED.close s w) = Ret tt -> _THREADS (snd (LED.close s w)) = ∅) /\
  (forall on_time off_time n,
     fst (LED.blink on_time off_time n false s s2 w) = Ret tt ->
     _THREADS (snd (LED.blink on_time off_time n false s s2 w)) = ∅) /\
  (forall on_time off_time n,
     fst (LED.blink on_time off_time n true s s2 w) = Ret tt ->
     _THREADS (snd (LED.blink on_time off_time n true s s2 w))
       = {[next_tid (snd (LED._stop_blink s w))]}).
Proof.
  intros Hreg.
  assert (Hsame : forall e w1, LED._stop_blink s w = (Raise e, w1) ->
                               registry_within_ref w1).
  { intros e w1 Hs u Hu.
    destruct (stop_blink_raise_same s w e w1 Hs) as [Hr Hl].
    rewrite Hl. apply Hreg. now rewrite <- Hr. }
  assert (Hempty : forall w', _THREADS w' = ∅ -> registry_within_ref w').
  { intros w' He u Hu. rewrite He in Hu. set_solver. }
  pose proof (stop_blink_never_hangs s w) as Hnh.
  rewrite on_cases, off_cases, close_cases.
  assert (Hblink : forall on_time off_time n background,
    registry_within_ref (snd (LED.blink on_time off_time n background s s2 w)) /\
    (fst (LED.blink on_time off_time n background s s2 w) = Ret tt ->
     _THREADS (snd (LED.blink on_time off_time n background s s2 w))
     = if background then {[next_tid (snd (LED._stop_blink s w))]} else ∅)).
  { intros. rewrite blink_cases.
    destruct (LED._stop_blink s w) as [[[]|e|] w1] eqn:Hs; cbn [fst snd] in *;
      [| split; [eapply Hsame; reflexivity|discriminate] | congruence].
    destruct (stop_blink_THREADS_ret s w w1 Hreg Hs) as [He Hn].
    cbn zeta.
    assert (H2 : _THREADS (spawned (on_time, off_time, n) w1) = {[next_tid w1]}).
    { rewrite spawned_THREADS, He. set_solver. }
    assert (R2 : forall w', _THREADS w' = {[next_tid w1]} ->
                 _blink_thread (led w') = Some (next_tid w1) ->
                 registry_within_ref w').
    { intros w' Hr Hl u Hu. rewrite Hr in Hu. rewrite Hl. set_solver. }
    destruct background.
    - cbn [fst snd]. split; [apply R2; [exact H2|reflexivity]|].
      intros _. exact H2.
    - destruct (is_alive (next_tid w1)
                  (run_sched s2 (spawned (on_time, off_time, n) w1)));
        cbn [fst snd].
      + split; [|discriminate].
        apply R2; [now rewrite run_sched_THREADS|now rewrite run_sched_led].
      + assert (H3 : _THREADS (clear_ref (confirm_dead (next_tid w1)
                       (run_sched s2 (spawned (on_time, off_time, n) w1)))) = ∅).
        { unfold clear_ref, confirm_dead. cbn [_THREADS set_led upd_thread
            set_threads set_THREADS].
          rewrite run_sched_THREADS, H2. set_solver. }
        split; [apply Hempty, H3|intros _; exact H3]. }
  split; [|].
  - destruct (LED._stop_blink s w) as [[[]|e|] w1] eqn:Hs; cbn [fst snd] in *;
      try congruence.
    + destruct (stop_blink_THREADS_ret s w w1 Hreg Hs) as [He Hn].
      repeat split; try (apply Hempty; exact He).
      intros. apply Hblink.
    + repeat split; try (eapply Hsame; reflexivity).
      intros. apply Hblink.
  - destruct (LED._stop_blink s w) as [[[]|e|] w1] eqn:Hs; cbn [fst snd] in *;
      try congruence.
    + destruct (stop_blink_THREADS_ret s w w1 Hreg Hs) as [He Hn].
      repeat split; try (intros _; exact He);
        intros on_time off_time n; apply (Hblink on_time off_time n).
    + repeat split; try discriminate;
        intros on_time off_time n; apply (Hblink on_time off_time n).
Qed.

Lemma registry_within_ref_blinking : registry_within_ref blinking_world.
Proof.
  intros u Hu. unfold blinking_world in *. rewrite blink_cases in Hu.
  cbn in Hu. cbn. f_equal. set_solver.
Qed.

Lemma registry_within_ref_kept_witness :
  registry_within_ref blinking_world /\
  _THREADS (snd (LED.close (replicate 4 0%nat) blinking_world)) = ∅.
Proof.
  split; [exact registry_within_ref_blinking|].
  destruct (registry_within_ref_kept (replicate 4 0%nat) [] blinking_world
              registry_within_ref_blinking) as (_ & _ & _ & H & _).
  apply H. vm_compute. reflexivity.
Defined.

(** ** The registry invariant through the LED methods *)

Lemma heap_inv_same_threads w w' :
  _THREADS w' = _THREADS w ->
  next_tid w' = next_tid w ->
  (forall x, run_state (threads w' x) = run_state (threads w x) /\
             confirmed (threads w' x) = confirmed (threads w x)) ->
  heap_inv w -> heap_inv w'.
Proof.
  intros Hr Hn Hx [Hreg Hfresh]. split.
  - intros x. destruct (Hx x) as [Hs Hc]. unfold started.
    rewrite Hr, Hs, Hc. apply Hreg.
  - intros u Hu. destruct (Hx u) as [Hs Hc]. rewrite Hs, Hc.
    apply Hfresh. now rewrite <- Hn.
Qed.

Lemma step_heap_inv u w : heap_inv w -> heap_inv (Target._blink_device u w).
Proof.
  intros [Hreg Hfresh]. split; [apply step_registry_inv, Hreg|].
  intros x Hx. destruct (step_frame u w) as (_ & _ & Hn & Hf).
  rewrite Hn in Hx. destruct (Hfresh x Hx) as [Hs Hc].
  destruct (Hf x) as (_ & _ & Hc'). rewrite Hc'. split; [|exact Hc].
  destruct (decide (u = x)) as [->|Hne].
  - rewrite step_dead; [exact Hs|]. unfold is_alive. now rewrite Hs.
  - rewrite step_other by exact Hne. exact Hs.
Qed.

Lemma run_sched_heap_inv s : forall w, heap_inv w -> heap_inv (run_sched s w).
Proof.
  induction s as [|u s IH]; intros w H; [exact H|].
  rewrite run_sched_cons. apply IH, step_heap_inv, H.
Qed.

Lemma signal_heap_inv t w : heap_inv w -> heap_inv (signal t w).
Proof.
  apply heap_inv_same_threads; try reflexivity.
  intros x. rewrite signal_run_state. split; [reflexivity|].
  unfold signal. cbn. unfold insert, fn_insert.
  case_decide; subst; reflexivity.
Qed.

Lemma confirm_dead_heap_inv t w :
  started t w = true -> heap_inv w -> heap_inv (confirm_dead t w).
Proof.
  intros Hs [Hreg Hfresh]. split;
    [apply confirm_dead_registry_inv; assumption|].
  intros u Hu. change (next_tid (confirm_dead t w)) with (next_tid w) in Hu.
  destruct (Hfresh u Hu) as [Hi Hc].
  assert (Hne : t <> u).
  { intros ->. unfold started in Hs. rewrite Hi in Hs. discriminate. }
  unfold confirm_dead. rewrite upd_thread_lookup.
  case_decide; [congruence|]. cbn. auto.
Qed.

Lemma log_heap_inv e w : heap_inv w -> heap_inv (log e w).
Proof. apply heap_inv_same_threads; auto. Qed.

Lemma clear_ref_heap_inv w : heap_inv w -> heap_inv (clear_ref w).
Proof. apply heap_inv_same_threads; auto. Qed.

Lemma stop_blink_heap_inv s w :
  heap_inv w -> heap_inv (snd (LED._stop_blink s w)).
Proof.
  intros H. destruct (_blink_thread (led w)) as [t|] eqn:Hb.
  - rewrite (stop_blink_some t s w Hb).
    destruct (started t w) eqn:Hs; cbn zeta.
    + destruct (is_alive t (run_sched s (signal t w))); cbn [snd].
      * apply run_sched_heap_inv, signal_heap_inv, H.
      * apply clear_ref_heap_inv, confirm_dead_heap_inv.
        -- now rewrite run_sched_started, signal_started.
        -- apply run_sched_heap_inv, signal_heap_inv, H.
    + cbn [snd]. apply signal_heap_inv, H.
  - rewrite (stop_blink_none s w Hb). cbn [snd]. apply clear_ref_heap_inv, H.
Qed.

Lemma spawned_heap_inv args w : heap_inv w -> heap_inv (spawned args w).
Proof.
  intros [Hreg Hfresh].
  destruct (Hfresh (next_tid w) (Nat.le_refl _)) as [Hi Hc].
  assert (Hnotin : next_tid w ∉ _THREADS w).
  { intros Hin. apply Hreg in Hin. destruct Hin as [Hs _].
    unfold started in Hs. rewrite Hi in Hs. discriminate. }
  split.
  - intros x. unfold started, spawned. cbn. unfold insert, fn_insert.
    repeat case_decide; subst; try congruence; cbn.
    + split; [|auto]. split; [auto|set_solver].
    + destruct (Hreg x) as [H1 H2]. split; [|exact H2].
      unfold started in H1. rewrite <- H1. set_solver.
  - intros u Hu. cbn in Hu. unfold spawned. cbn. unfold insert, fn_insert.
    repeat case_decide; subst; try lia. apply Hfresh. lia.
Qed.

(** X8.  The registry invariant of [GPIOThread] is an invariant of the
    whole LED interface: together with "no thread object exists at or
    beyond the next identity", it holds when the module is loaded and
    every LED method keeps it, whatever the outcome and the schedule. *)
Theorem heap_inv_kept (s s2 : sched) (w : world) :
  heap_inv w ->
  (forall _pin, heap_inv (snd (LED.__init__ _pin w))) /\
  heap_inv (snd (LED.on s w)) /\
  heap_inv (snd (LED.off s w)) /\
  heap_inv (snd (LED.close s w)) /\
  (forall on_time off_time n background,
     heap_inv (snd (LED.blink on_time off_time n background s s2 w))).
Proof.
  intros H. pose proof (stop_blink_heap_inv s w H) as Hstop.
  rewrite on_cases, off_cases, close_cases.
  split; [|split; [|split; [|split]]].
  - intros _pin. revert H. apply heap_inv_same_threads; auto.
  - destruct (LED._stop_blink s w) as [[[]|e|] w1]; cbn [snd] in *;
      first [assumption | apply log_heap_inv, Hstop].
  - destruct (LED._stop_blink s w) as [[[]|e|] w1]; cbn [snd] in *;
      first [assumption | apply log_heap_inv, Hstop].
  - destruct (LED._stop_blink s w) as [[[]|e|] w1]; cbn [snd] in *;
      first [assumption | apply log_heap_inv, Hstop].
  - intros. rewrite blink_cases.
    destruct (LED._stop_blink s w) as [[[]|e|] w1]; cbn [snd] in *;
      try assumption.
    cbn zeta.
    pose proof (spawned_heap_inv (on_time, off_time, n) w1 Hstop) as H2.
    destruct background; [exact H2|].
    pose proof (run_sched_heap_inv s2 _ H2) as H3.
    destruct (is_alive (next_tid w1)
                (run_sched s2 (spawned (on_time, off_time, n) w1))); cbn [snd];
      [exact H3|].
    apply clear_ref_heap_inv, confirm_dead_heap_inv; [|exact H3].
    rewrite run_sched_started.
    apply (at_pc_started _ PEntry), spawned_state.
Qed.

Lemma heap_inv_module_loaded : heap_inv module_loaded.
Proof.
  split; [exact module_loaded_registry_inv|]. intros u _. split; reflexivity.
Qed.

Lemma heap_inv_kept_witness :
  heap_inv module_loaded /\
  heap_inv (snd (LED.blink 1 1 None true [] [] module_loaded)) /\
  registry_inv (snd (LED.blink 1 1 None true [] [] module_loaded)).
Proof.
  split; [exact heap_inv_module_loaded|].
  destruct (heap_inv_kept [] [] module_loaded heap_inv_module_loaded)
    as (_ & _ & _ & _ & H).
  split; [apply H | apply H].
Defined.

(** ** The writes of a blink thread alternate under every interleaving *)

Lemma thread_writes_app t tr1 tr2 :
  thread_writes t (tr1 ++ tr2) = thread_writes t tr1 ++ thread_writes t tr2.
Proof. unfold thread_writes. apply omap_app. Qed.

Lemma alternation_snoc m : forall v,
  alternation (S m) v = alternation m v ++ [if Nat.even m then v else 1 - v].
Proof.
  induction m as [|m IH]; intros v; [reflexivity|].
  change (alternation (S (S m)) v) with (v :: alternation (S m) (1 - v)).
  rewrite IH. cbn [alternation app]. rewrite Nat.even_succ, <- Nat.negb_even.
  destruct (Nat.even m); cbn; repeat f_equal; lia.
Qed.

Lemma alternating_same t base w w' :
  run_state (threads w' t) = run_state (threads w t) ->
  thread_writes t (trace w') = thread_writes t (trace w) ->
  alternating t base w -> alternating t base w'.
Proof.
  intros Hs Ht (m & Hm & Hp). exists m. rewrite Hs, Ht. auto.
Qed.

Lemma alternating_write t base w w' v (s' : tstate) :
  alternating t base w ->
  writes_even_at (run_state (threads w t)) = Some (Z.eqb v 1) ->
  (v = 1 \/ v = 0) ->
  run_state (threads w' t) = s' ->
  writes_even_at s' = Some (negb (Z.eqb v 1)) ->
  thread_writes t (trace w') = thread_writes t (trace w) ++ [v] ->
  alternating t base w'.
Proof.
  intros (m & Hm & Hp) Hbefore Hv Hs' Hafter Ht.
  specialize (Hp _ Hbefore).
  exists (S m). split.
  - rewrite Ht, Hm, alternation_snoc, Hp, <- app_assoc.
    destruct Hv as [-> | ->]; reflexivity.
  - intros b. rewrite Hs', Hafter. intros [= <-].
    rewrite Nat.even_succ, <- Nat.negb_even, Hp. reflexivity.
Qed.

Lemma alternating_silent t base w w' :
  alternating t base w ->
  thread_writes t (trace w') = thread_writes t (trace w) ->
  (forall b, writes_even_at (run_state (threads w' t)) = Some b ->
             writes_even_at (run_state (threads w t)) = Some b) ->
  alternating t base w'.
Proof.
  intros (m & Hm & Hp) Ht Hs. exists m. rewrite Ht. auto.
Qed.

Lemma step_other_thread_writes t u w :
  u <> t ->
  thread_writes t (trace (Target._blink_device u w))
  = thread_writes t (trace w).
Proof.
  intros Hne.
  step_cases u w; cbn -[thread_writes]; rewrite ?thread_writes_app; cbn;
    repeat case_decide; try congruence; now rewrite ?app_nil_r.
Qed.

Lemma step_alternating t u base w :
  alternating t base w -> alternating t base (Target._blink_device u w).
Proof.
  intros H. destruct (decide (u = t)) as [->|Hne].
  - unfold Target._blink_device, Target.wait_stopping, Event.is_set.
    destruct (targs (threads w t)) as [[on_time off_time] n].
    destruct (run_state (threads w t)) as [|[|it|it|it|it|it]| |] eqn:Hst;
      try exact H.
    + eapply alternating_silent; [exact H|reflexivity|].
      rewrite goto_state, Hst. auto.
    + destruct (Target.next it).
      * eapply alternating_silent; [exact H|reflexivity|].
        rewrite goto_state, Hst. auto.
      * eapply alternating_silent; [exact H|reflexivity|].
        rewrite finish_state. discriminate.
    + eapply (alternating_write t base w _ 1);
        [exact H|now rewrite Hst|auto|apply goto_state|reflexivity|].
      cbn -[thread_writes]. rewrite thread_writes_app. cbn.
      case_decide; [reflexivity|congruence].
    + destruct (_blink_thread (led w)) as [b|];
        [destruct (stopping (threads w b))|];
        (eapply alternating_silent;
         [exact H
         |cbn -[thread_writes]; rewrite ?thread_writes_app; cbn;
          now rewrite ?app_nil_r
         |]).
      * rewrite finish_state. discriminate.
      * rewrite goto_state, Hst. auto.
      * unfold Target.die. rewrite upd_thread_lookup.
        case_decide; [|congruence]. discriminate.
    + eapply (alternating_write t base w _ 0);
        [exact H|now rewrite Hst|auto|apply goto_state|reflexivity|].
      cbn -[thread_writes]. rewrite thread_writes_app. cbn.
      case_decide; [reflexivity|congruence].
    + destruct (_blink_thread (led w)) as [b|];
        [destruct (stopping (threads w b))|];
        (eapply alternating_silent;
         [exact H
         |cbn -[thread_writes]; rewrite ?thread_writes_app; cbn;
          now rewrite ?app_nil_r
         |]).
      * rewrite finish_state. discriminate.
      * rewrite goto_state, Hst. auto.
      * unfold Target.die. rewrite upd_thread_lookup.
        case_decide; [|congruence]. discriminate.
  - eapply alternating_same; [|apply step_other_thread_writes; exact Hne|exact H].
    apply step_other. exact Hne.
Qed.

Lemma action_alternating t a base w :
  alternating t base w -> alternating t base (run_action a w).
Proof.
  destruct a as [u|b|b|r]; cbn [run_action].
  - apply step_alternating.
  - apply alternating_same.
    + cbn. unfold insert, fn_insert. case_decide; subst; reflexivity.
    + cbn -[thread_writes]. rewrite thread_writes_app. cbn. apply app_nil_r.
  - apply alternating_same.
    + cbn. unfold insert, fn_insert. case_decide; subst; reflexivity.
    + cbn -[thread_writes]. rewrite thread_writes_app. cbn. apply app_nil_r.
  - apply alternating_same; reflexivity.
Qed.

Lemma actions_alternating t base acts : forall w,
  alternating t base w -> alternating t base (run_actions acts w).
Proof.
  induction acts as [|a acts IH]; intros w H; [exact H|].
  cbn. apply IH, action_alternating, H.
Qed.

(** X9.  Whatever happens around a blink thread from its start on (steps
    of any thread in any order, the controlling path setting or clearing
    any event or rebinding the LED's reference), the levels the thread
    writes strictly alternate, beginning with level 1: its writes are
    always a prefix of 1, 0, 1, 0, ... *)
Theorem thread_writes_alternate (t : tid) (acts : list action) (w : world) :
  at_pc t PEntry w ->
  exists m,
    thread_writes t (trace (run_actions acts w))
    = thread_writes t (trace w) ++ alternation m 1.
Proof.
  intros Hs.
  assert (H0 : alternating t (thread_writes t (trace w)) w).
  { exists 0%nat. split; [cbn; now rewrite app_nil_r|].
    unfold at_pc in Hs. rewrite Hs. intros b [= <-]. reflexivity. }
  destruct (actions_alternating t _ acts w H0) as (m & Hm & _).
  exists m. exact Hm.
Qed.

Lemma thread_writes_alternate_witness :
  at_pc 0%nat PEntry blinking_world /\
  exists m,
    thread_writes 0%nat
      (trace (run_actions [AStep 0%nat; AStep 0%nat; AStep 0%nat; ASet 0%nat;
                           AStep 0%nat; AStep 0%nat] blinking_world))
    = thread_writes 0%nat (trace blinking_world) ++ alternation m 1.
Proof.
  split; [reflexivity|].
  apply (thread_writes_alternate 0%nat _ blinking_world). reflexivity.
Defined.

(** ** A second blink replaces the first *)

Lemma dead_thread_writes_nothing t s : forall w,
  is_alive t w = false ->
  thread_writes t (trace (run_sched s w)) = thread_writes t (trace w).
Proof.
  induction s as [|u s IH]; intros w Hd; [reflexivity|].
  rewrite run_sched_cons. destruct (decide (u = t)) as [->|Hne].
  - rewrite (step_dead t w Hd). apply IH, Hd.
  - rewrite IH.
    + apply step_other_thread_writes, Hne.
    + destruct (is_alive t (Target._blink_device u w)) eqn:Ha; [|reflexivity].
      apply step_alive_mono in Ha. congruence.
Qed.

(** X10.  Starting a blink while another one runs: when the call returns,
    the old thread is dead and out of the registry, the new thread (a new
    object) is the only live one and the one the LED refers to; every
    event of the old thread lies before the start of the new one, and the
    old thread never writes again, whatever is scheduled later. *)
Theorem second_blink_replaces_first (on_time off_time : Z) (n : option Z)
    (s s2 : sched) (t : tid) (w : world) :
  single_task w ->
  fresh_from w ->
  _blink_thread (led w) = Some t ->
  fst (LED.blink on_time off_time n true s s2 w) = Ret tt ->
  let w' := snd (LED.blink on_time off_time n true s s2 w) in
  let t' := next_tid w in
  t' <> t /\
  _blink_thread (led w') = Some t' /\
  is_alive t w' = false /\
  (t ∉ _THREADS w') /\
  (t' ∈ _THREADS w') /\
  at_pc t' PEntry w' /\
  (forall u, is_alive u w' = true -> u = t') /\
  (exists evs, trace w' = trace w ++ ESet t :: evs ++ [EClear t'] /\
               no_main_write evs) /\
  (forall s', thread_writes t (trace (run_sched s' w'))
              = thread_writes t (trace w')).
Proof.
  intros Hone Hfresh Hb Hret w' t'. subst w'.
  revert Hret. rewrite blink_cases.
  destruct (LED._stop_blink s w) as [[[]|e|] w1] eqn:Hs; try discriminate.
  intros _. cbn zeta. cbn [snd].
  destruct (stop_blink_ret_inv s w w1 Hs) as (_ & _ & Hn & _ & _ & Hold).
  destruct (Hold t Hb) as (Hdead & Hnotin & _ & (evs0 & Htr0)).
  pose proof (stop_blink_all_dead s w w1 Hone Hs) as Hall.
  assert (Hst : started t w = true).
  { revert Hs. rewrite (stop_blink_some t s w Hb).
    destruct (started t w); [reflexivity|discriminate]. }
  assert (Hne : t' <> t).
  { intros He. destruct (Hfresh t' (Nat.le_refl _)) as [Hi _].
    unfold started in Hst. rewrite <- He, Hi in Hst. discriminate. }
  assert (Hn1 : next_tid w1 = t') by exact Hn.
  assert (Hother : forall u, u <> t' ->
            is_alive u (spawned (on_time, off_time, n) w1) = false).
  { intros u Hu. unfold is_alive. rewrite spawned_other by congruence.
    apply Hall. }
  assert (Hdead' : is_alive t (spawned (on_time, off_time, n) w1) = false).
  { apply Hother. congruence. }
  repeat apply conj.
  - exact Hne.
  - rewrite spawned_led, Hn1. reflexivity.
  - exact Hdead'.
  - rewrite spawned_THREADS, Hn1. set_solver.
  - rewrite spawned_THREADS, Hn1. set_solver.
  - rewrite <- Hn1. apply spawned_state.
  - intros u Hu. destruct (decide (u = t')) as [|Hu']; [assumption|].
    rewrite (Hother u Hu') in Hu. discriminate.
  - revert Hs. rewrite (stop_blink_some t s w Hb), Hst. cbn zeta.
    destruct (is_alive t (run_sched s (signal t w))); [discriminate|].
    intros [= <-].
    destruct (run_sched_trace s (signal t w)) as (evs & Ht & Hnm).
    exists evs. split; [|exact Hnm].
    rewrite spawned_trace.
    cbn [trace clear_ref confirm_dead set_led upd_thread set_threads
         set_THREADS next_tid].
    rewrite Ht. destruct (run_sched_frame s (signal t w)) as (_ & _ & Hnx & _).
    rewrite Hnx. cbn [signal trace log next_tid upd_thread set_threads].
    rewrite <- !app_assoc. reflexivity.
  - intros s'. apply dead_thread_writes_nothing, Hdead'.
Qed.

Lemma fresh_from_blinking : fresh_from blinking_world.
Proof.
  intros u Hu. unfold blinking_world in *. rewrite blink_cases in *.
  cbn in *. unfold insert, fn_insert.
  repeat case_decide; subst; try lia. split; reflexivity.
Qed.

Lemma second_blink_replaces_first_witness :
  single_task blinking_world /\
  fresh_from blinking_world /\
  _blink_thread (led blinking_world) = Some 0%nat /\
  fst (LED.blink 2 3 (Some 5) true (replicate 4 0%nat) [] blinking_world)
    = Ret tt /\
  _blink_thread
    (led (snd (LED.blink 2 3 (Some 5) true (replicate 4 0%nat) []
                 blinking_world))) = Some 1%nat.
Proof.
  assert (Hr : fst (LED.blink 2 3 (Some 5) true (replicate 4 0%nat) []
                      blinking_world) = Ret tt) by (vm_compute; reflexivity).
  split; [exact single_task_blinking|]. split; [exact fresh_from_blinking|].
  split; [reflexivity|]. split; [exact Hr|].
  destruct (second_blink_replaces_first 2 3 (Some 5) (replicate 4 0%nat) []
              0%nat blinking_world single_task_blinking fresh_from_blinking
              eq_refl Hr) as (_ & H & _).
  exact H.
Defined.

(** ** A background blink that runs out *)



Lemma single_task_kept_witness :
  single_task blinking_world /\
  single_task (snd (LED.blink 1 1 (Some 2) true [] [] blinking_world)) /\
  single_task (snd (LED.off (replicate 4 0%nat) blinking_world)).
Proof.
  split; [exact single_task_blinking|].
  destruct (single_task_kept [] [] blinking_world single_task_blinking)
    as (_ & _ & _ & Hb).
  destruct (single_task_kept (replicate 4 0%nat) [] blinking_world
              single_task_blinking) as (_ & Hoff & _).
  split; [apply Hb | exact Hoff].
Defined.

(** ** What a blink thread can and cannot do *)

Lemma step_toggle_events u w :
  exists evs,
    trace (Target._blink_device u w) = trace w ++ evs /\
    Forall (toggle_event (port (led w))) evs.
Proof.
  step_cases u w;
    first
      [ exists []; split; [cbn; now rewrite app_nil_r | constructor]
      | eexists [_]; split;
        [reflexivity | constructor; [cbn; auto | constructor]] ].
Qed.

(** X13.  A blink thread only toggles: whatever the schedule, the threads
    leave the registry, the LED object, every event and every thread's
    arguments as they are, and the only events they add are waits and
    writes of level 0 or 1 to the LED's pin; there is no [gpio.init], no
    [gpio.setcfg] and no write to another pin. *)
Theorem threads_only_toggle (s : sched) (w : world) :
  frame w (run_sched s w) /\
  exists evs,
    trace (run_sched s w) = trace w ++ evs /\
    Forall (toggle_event (port (led w))) evs.
Proof.
  split; [apply run_sched_frame|].
  revert w. induction s as [|u s IH]; intros w.
  - exists []. split; [cbn; now rewrite app_nil_r|constructor].
  - rewrite run_sched_cons.
    destruct (step_toggle_events u w) as (e1 & H1 & N1).
    destruct (IH (Target._blink_device u w)) as (e2 & H2 & N2).
    destruct (step_frame u w) as (_ & Hl & _). rewrite Hl in N2.
    exists (e1 ++ e2). split; [|apply Forall_app; auto].
    rewrite H2, H1, app_assoc. reflexivity.
Qed.

(** ** A blink thread whose LED lost its reference *)

Lemma step_run_state t w :
  run_state (threads (Target._blink_device t w) t)
  = next_state (snd (targs (threads w t))) (seen_flag w)
      (run_state (threads w t)).
Proof.
  unfold seen_flag.
  step_cases t w; cbn [snd next_state];
    rewrite ?Hnext, ?Hflag; unfold Target.die;
    rewrite ?goto_state, ?finish_state, ?upd_thread_lookup;
    try case_decide; try congruence; try reflexivity; try assumption.
Qed.

Lemma seen_flag_frame w w' : frame w w' -> seen_flag w' = seen_flag w.
Proof.
  intros (_ & Hl & _ & Hx). unfold seen_flag. rewrite Hl.
  destruct (_blink_thread (led w)) as [b|]; [|reflexivity].
  destruct (Hx b) as (-> & _). reflexivity.
Qed.

(** The state of a thread after [k] of its own steps, while nothing else
    changes what its waits see. *)
Lemma run_thread_state k t : forall w,
  run_state (threads (run_thread k t w) t)
  = Nat.iter k (next_state (snd (targs (threads w t))) (seen_flag w))
      (run_state (threads w t)).
Proof.
  induction k as [|k IH]; intros w; [reflexivity|].
  rewrite run_thread_S, IH, step_run_state.
  destruct (step_frame t w) as (_ & _ & _ & Hx).
  destruct (Hx t) as (_ & -> & _).
  rewrite (seen_flag_frame w _ (step_frame t w)).
  rewrite <- Nat.iter_succ_r. reflexivity.
Qed.

(** X14.  If the LED refers to no thread while a blink thread is still
    running (its reference was overwritten, for instance by running
    [__init__] again), the thread ends within four of its steps: at its
    next wait it dies of [AttributeError], unless its iterator is used up
    first.  Nothing removes it from [_THREADS]: the LED methods find no
    task to stop, return, and leave the registry as it is. *)
Theorem orphaned_thread_dies (t : tid) (s : sched) (w : world) :
  _blink_thread (led w) = None ->
  is_alive t w = true ->
  let w4 := run_thread 4 t w in
  (run_state (threads w4 t) = Finished \/
   run_state (threads w4 t)
     = Died (AttributeError "'NoneType' object has no attribute 'stopping'")) /\
  is_alive t w4 = false /\
  _THREADS w4 = _THREADS w /\
  fst (LED.off s w4) = Ret tt /\
  _THREADS (snd (LED.off s w4)) = _THREADS w /\
  fst (LED.close s w4) = Ret tt /\
  _THREADS (snd (LED.close s w4)) = _THREADS w.
Proof.
  intros Hb Ha w4.
  assert (Hst : run_state (threads w4 t) = Finished \/
                run_state (threads w4 t)
                = Died (AttributeError "'NoneType' object has no attribute 'stopping'")).
  { subst w4. rewrite run_thread_state. unfold seen_flag. rewrite Hb.
    unfold is_alive in Ha.
    destruct (run_state (threads w t)) as [|[|it|it|it|it|it]| |];
      try discriminate; cbn;
      repeat match goal with
             | |- context [Target.next ?i] => destruct (Target.next i)
             end; cbn; auto. }
  assert (Hb4 : _blink_thread (led w4) = None).
  { subst w4. unfold run_thread. now rewrite run_sched_led. }
  assert (Hr4 : _THREADS w4 = _THREADS w).
  { subst w4. unfold run_thread. apply run_sched_THREADS. }
  rewrite off_cases, close_cases, (stop_blink_none s w4 Hb4). cbn [fst snd].
  repeat apply conj; try reflexivity; try assumption.
  unfold is_alive. destruct Hst as [-> | ->]; reflexivity.
Qed.

Lemma orphaned_thread_dies_witness :
  _blink_thread (led (snd (LED.__init__ None blinking_world))) = None /\
  is_alive 0%nat (snd (LED.__init__ None blinking_world)) = true /\
  run_state (threads (run_thread 4 0%nat (snd (LED.__init__ None blinking_world)))
               0%nat)
  = Died (AttributeError "'NoneType' object has no attribute 'stopping'") /\
  0%nat ∈ _THREADS (snd (LED.close []
             (run_thread 4 0%nat (snd (LED.__init__ None blinking_world))))).
Proof.
  split; [reflexivity|]. split; [reflexivity|].
  destruct (orphaned_thread_dies 0%nat [] (snd (LED.__init__ None blinking_world))
              eq_refl eq_refl) as (_ & _ & _ & _ & _ & _ & Hreg).
  split; [vm_compute; reflexivity|].
  rewrite Hreg. vm_compute. reflexivity.
Defined.
